(** * Quiz-game REST service ([src/app.js]): model and properties

    The service is an Express application over three JSON documents
    ([users], [questions], [game-runs]).  Every route handler is embedded
    as a function from the document store (and the request data the handler
    looks at) to a response and, where the handler writes, the new store.

    Conventions of the embedding:
    - a JS object used as a dictionary is a [gmap string _];
    - a JS number that comes out of [JSON.parse] is a rational (every
      finite double is one); integer-valued record fields are [Z];
    - [uuidv4()] and [new Date().getTime()] are inputs of the handler
      that calls them;
    - an uncaught JS exception is the completion [Throw]. *)

From Stdlib Require Import ZArith QArith String Lqa.
From stdpp Require Import gmap strings list fin_maps.

Local Open Scope string_scope.
Local Open Scope Z_scope.

(** ** JSON values, as produced by [express.json()] / [JSON.parse] *)

#[warnings="-register-all"]
Inductive json : Type :=
  | JNull
  | JBool (b : bool)
  | JNumber (q : Q)
  | JString (s : string)
  | JArray (l : list json)
  | JObject (m : gmap string json).

(** [Math.trunc] on a rational. *)
Definition trunc (q : Q) : Z := Z.quot (Qnum q) (Zpos (Qden q)).

(** [correctAnswer === answerIndex] where the left side is an integer
    number: strict equality never converts, so only a number can be equal. *)
Definition strict_equals (n : Z) (v : json) : bool :=
  match v with
  | JNumber q => Qeq_bool (inject_Z n) q
  | _ => false
  end.

(** ** Records of the three collections *)

Module User.
Record t : Type := mk { userName : string; password : string }.
End User.

Module Question.
Record t : Type := mk {
  id : string;
  question : string;
  options : list string;
  correctAnswer : Z
}.

(** The JS object [JSON.parse] builds for a question record. *)
Definition to_object (q : t) : gmap string json :=
  <["id" := JString (id q)]>
    (<["question" := JString (question q)]>
       (<["options" := JArray (JString <$> options q)]>
          (<["correctAnswer" := JNumber (inject_Z (correctAnswer q))]> ∅))).
End Question.

Module GameRun.
Record t : Type := mk {
  id : string;
  userName : string;
  createdAt : Z;
  responses : gmap string json
}.

(** [gameRun.responses = value] *)
Definition set_responses (value : gmap string json) (g : t) : t :=
  mk (id g) (userName g) (createdAt g) value.
End GameRun.

(** ** The document store ([./tools/json-files.js]) *)

Record Store : Type := mkStore {
  users_json : list User.t;
  questions_json : list Question.t;
  game_runs_json : list GameRun.t
}.

Inductive Collection : Type -> Type :=
  | Users : Collection (list User.t)
  | Questions : Collection (list Question.t)
  | GameRuns : Collection (list GameRun.t).

(** Modelled from the spec: [read] of [./tools/json-files.js], which is not
    among the sources.  "reads/writes named collections as whole-collection
    documents": a read parses the whole document anew, so the value it
    returns shares nothing with the store or with an earlier read. *)
Definition read {A : Type} (name : Collection A) (st : Store) : A :=
  match name in Collection T return T with
  | Users => users_json st
  | Questions => questions_json st
  | GameRuns => game_runs_json st
  end.

(** Modelled from the spec: [write] of [./tools/json-files.js], which is not
    among the sources.  "collections are read in full and rewritten in full
    on any mutation": the named document is replaced, the others are kept. *)
Definition write {A : Type} (name : Collection A) : A -> Store -> Store :=
  match name in Collection T return T -> Store -> Store with
  | Users => fun v st => mkStore v (questions_json st) (game_runs_json st)
  | Questions => fun v st => mkStore (users_json st) v (game_runs_json st)
  | GameRuns => fun v st => mkStore (users_json st) (questions_json st) v
  end.

(** ** Tokens ([jsonwebtoken], [passport-jwt])

    Signing is idealised: a token records the key it was signed with and
    verification compares that key with the verifier's. *)

Definition JWT_SECRET : string := "super-secret".

Record Jwt : Type := mkJwt {
  jwt_userName : string;   (* payload.userName *)
  jwt_sub : string;        (* the subject claim *)
  jwt_iat : Z;             (* issued-at, set by jwt.sign *)
  jwt_key : string         (* the key of the signature *)
}.

(** [jwt.sign({ userName }, secret, { subject })] at time [now]. *)
Definition jwt_sign (userName secret subject : string) (now : Z) : Jwt :=
  mkJwt userName subject now secret.

(** Signature check: the payload on success. *)
Definition jwt_verify (token : Jwt) (secret : string) : option Jwt :=
  if decide (jwt_key token = secret) then Some token else None.

(** The principal the JWT strategy builds: [{ userName: jwtPayload.userName }]. *)
Record Principal : Type := mkPrincipal { principal_userName : string }.

(** ** Responses *)

Inductive NumberViolation : Type :=
  | number_base       (* not a number (strict: no conversion) *)
  | number_unsafe     (* outside the safe-integer range *)
  | number_integer
  | number_min
  | number_max.

Inductive ValidationError : Type :=
  | object_base                                         (* not an object *)
  | object_value (key : string) (why : NumberViolation) (* a pattern value fails *)
  | object_unknown (key : string)                       (* key matches no pattern *)
  | object_min.                                         (* fewer than 1 key *)

Inductive Body : Type :=
  | TokenBody (token : Jwt)                       (* { token } *)
  | QuestionsBody (l : list (gmap string json))
  | QuestionBody (o : gmap string json)
  | RunIdBody (runId : string)                    (* { runId } *)
  | ErrorBody (error : ValidationError)           (* { error } *)
  | ResultsBody (id userName : string) (createdAt : Z)
                (responses : gmap string bool).

Inductive Response : Type :=
  | SendStatus (code : Z)               (* res.sendStatus(code) *)
  | Send (code : Z) (body : Body).      (* res.status(code).send(body) *)

Inductive JsError : Type :=
  | TypeError.

(** What [express.json()] (strict mode) leaves in [req.body] for a request
    that carries a JSON document: an object or an array. *)
Inductive ReqBody : Type :=
  | BodyObject (m : gmap string json)
  | BodyArray (l : list json).

(** ** Completions: a value, or an exception that unwinds the handler *)

Inductive Completion (A : Type) : Type :=
  | Normal (a : A)
  | Throw (e : JsError).
Arguments Normal {A} a.
Arguments Throw {A} e.

Definition bind {A B : Type} (c : Completion A) (k : A -> Completion B)
  : Completion B :=
  match c with
  | Normal a => k a
  | Throw e => Throw e
  end.

Notation "'let*' x ':=' c 'in' k" := (bind c (fun x => k))
  (at level 10, x pattern, c at level 100, k at level 200).

(** [array.map(f)] for a callback that may throw: the first exception
    aborts the traversal. *)
Fixpoint array_map {A B : Type} (f : A -> Completion B) (l : list A)
  : Completion (list B) :=
  match l with
  | [] => Normal []
  | x :: rest =>
      let* y := f x in
      let* ys := array_map f rest in
      Normal (y :: ys)
  end.

(** [array.find(p)]: the first element that satisfies [p], with its index,
    which stands for the reference JS hands out (an assignment through it
    updates the array at that index). *)
Definition array_find {A : Type} (P : A -> Prop) `{forall x, Decision (P x)}
  (l : list A) : option (nat * A) := list_find P l.

(** ** The application *)

Section App.

(** [const questions = read("questions")] at module level: evaluated once,
    when the module is loaded. *)
Variable questions : list Question.t.

(** [bcrypt.compare(password, hash)], an external primitive. *)
Variable bcrypt_compare : string -> string -> bool.

Definition questionIds : list string := Question.id <$> questions.

(** *** Strategies and middleware *)

(** The verify callback of the Basic strategy: [Some user] is
    [done(null, user)], [None] is [done(null, false)]. *)
Definition basic_verify (st : Store) (userName password : string)
  : option User.t :=
  let users := read Users st in
  match array_find (fun user => User.userName user = userName) users with
  | None => None
  | Some (_, user) =>
      if bcrypt_compare password (User.password user)
      then Some user
      else None
  end.

(** [passport.authenticate("jwt")]: the bearer token, when there is one
    and its signature verifies under [JWT_SECRET], gives [req.user]. *)
Definition jwt_authenticate (bearer : option Jwt) : option Principal :=
  match bearer with
  | None => None
  | Some token =>
      match jwt_verify token JWT_SECRET with
      | None => None
      | Some jwtPayload => Some (mkPrincipal (jwt_userName jwtPayload))
      end
  end.

(** [gameOwnerMiddleware]: [None] is the call of [next()]. *)
Definition gameOwnerMiddleware (st : Store) (user : option Principal)
  (runId : string) : option Response :=
  match user with
  | None => Some (SendStatus 401)
  | Some user =>
      let gameRuns := read GameRuns st in
      match array_find (fun gameRun => GameRun.id gameRun = runId) gameRuns with
      | None => Some (SendStatus 404)
      | Some (_, gameRun) =>
          if decide (GameRun.userName gameRun = principal_userName user)
          then None
          else Some (SendStatus 403)
      end
  end.

(** *** POST /authenticate

    [credentials] is the pair the Basic strategy passes to its verify
    callback; [None] when the request has no usable Authorization header. *)
Definition post_authenticate (st : Store)
  (credentials : option (string * string)) (now : Z) : Response :=
  match credentials with
  | None => SendStatus 401
  | Some (userName, password) =>
      match basic_verify st userName password with
      | None => SendStatus 401
      | Some user =>
          let token :=
            jwt_sign (User.userName user) JWT_SECRET (User.userName user) now in
          Send 200 (TokenBody token)
      end
  end.

(** *** GET /questions *)
Definition get_questions (st : Store) : Response :=
  let questions := read Questions st in
  Send 200
    (QuestionsBody
       ((fun q =>
           <["id" := JString (Question.id q)]>
             (<["question" := JString (Question.question q)]>
                (<["options" := JArray (JString <$> Question.options q)]> ∅)))
          <$> questions)).

(** *** GET /questions/:questionId *)
Definition get_question (st : Store) (questionId : string) : Response :=
  let questions := read Questions st in
  match array_find (fun question => Question.id question = questionId)
          questions with
  | None => SendStatus 404
  | Some (_, question) =>
      Send 200 (QuestionBody (delete "correctAnswer" (Question.to_object question)))
  end.

(** *** POST /game-runs

    [runId] is the value of [uuidv4()], [now] of [new Date().getTime()]. *)
Definition post_game_runs (st : Store) (bearer : option Jwt)
  (runId : string) (now : Z) : Response * Store :=
  match jwt_authenticate bearer with
  | None => (SendStatus 401, st)
  | Some user =>
      let st' :=
        write GameRuns
          (read GameRuns st ++
             [GameRun.mk runId (principal_userName user) now ∅])%list st in
      (Send 200 (RunIdBody runId), st')
  end.

(** *** The schema of PUT /game-runs/:runId/responses

    [Joi.object().pattern(Joi.string().valid(...questionIds),
       Joi.number().integer().min(0).max(3).required().strict()).min(1)],
    validated with Joi's defaults (the first violation is the error). *)

Definition MAX_SAFE_INTEGER : Z := 9007199254740991.

(** [Joi.string().valid(...questionIds)] on a key.  With at least one id
    the listed ids are the only strings allowed.  Spread over an empty
    array, [valid()] lists nothing and restricts nothing: the schema is the
    plain [Joi.string()], which allows every string but the empty one. *)
Definition key_schema (key : string) : bool :=
  match questionIds with
  | [] => bool_decide (key ≠ "")
  | _ :: _ => bool_decide (key ∈ questionIds)
  end.

(** Joi checks, and returns, a shallow clone of the object, filled with
    [Object.assign]: assigning an own ["__proto__"] key goes to the
    prototype's setter instead of creating the key, so the clone has every
    own key of the object but that one. *)
Definition clone (m : gmap string json) : gmap string json :=
  delete "__proto__" m.

(** [Joi.number().integer().min(0).max(3).required().strict()] on a value:
    [None] when the value passes.  [strict()] switches conversion off, so a
    numeric string is not a number; the number type itself refuses what lies
    outside the safe-integer range; then the rules run in the order written. *)
Definition value_schema (v : json) : option NumberViolation :=
  match v with
  | JNumber q =>
      if negb (Qle_bool q (inject_Z MAX_SAFE_INTEGER))
         || negb (Qle_bool (inject_Z (- MAX_SAFE_INTEGER)) q)
      then Some number_unsafe
      else if negb (Qeq_bool (inject_Z (trunc q) - q) 0)
      then Some number_integer
      else if negb (Qle_bool 0 q) then Some number_min
      else if negb (Qle_bool q 3) then Some number_max
      else None
  | _ => Some number_base
  end.

(** One key of the object against the pattern: the violation of its value
    when the key matches the key schema. *)
Definition pattern_entry (entry : string * json) : option ValidationError :=
  if key_schema entry.1
  then object_value entry.1 <$> value_schema entry.2
  else None.

(** [putGameRunResponsesSchema.validate(req.body)]: [inl error] or
    [inr value].  An object is cloned; the clone is checked key by key
    against the pattern, then for keys no pattern matched, then against
    [.min(1)], and is the value returned.  The keys are visited in the
    enumeration order of the map; the property order of the JS object is
    not kept, so when several keys are in violation the one reported need
    not be the one Joi reports. *)
Definition putGameRunResponsesSchema (body : ReqBody)
  : ValidationError + gmap string json :=
  match body with
  | BodyArray _ => inl object_base
  | BodyObject m =>
      let value := clone m in
      let entries := map_to_list value in
      match head (omap pattern_entry entries) with
      | Some error => inl error
      | None =>
          match head (filter (fun entry => key_schema entry.1 = false) entries) with
          | Some entry => inl (object_unknown entry.1)
          | None =>
              if decide (size value < 1)%nat then inl object_min else inr value
          end
      end
  end.

(** *** PUT /game-runs/:runId/responses *)

(** The route's own handler, run after both middlewares called [next()]. *)
Definition put_responses_handler (st : Store) (runId : string)
  (body : ReqBody) : Response * Store :=
  let gameRuns := read GameRuns st in
  match array_find (fun gameRun => GameRun.id gameRun = runId) gameRuns with
  | None => (SendStatus 404, st)
  | Some (i, gameRun) =>
      match putGameRunResponsesSchema body with
      | inl error => (Send 400 (ErrorBody error), st)
      | inr value =>
          (* gameRun.responses = value: the element of gameRuns changes *)
          let gameRuns := <[i := GameRun.set_responses value gameRun]> gameRuns in
          let st' :=
            write GameRuns
              ((fun gameRun =>
                  if decide (GameRun.id gameRun = runId)
                  then gameRun else gameRun) <$> gameRuns) st in
          (SendStatus 200, st')
      end
  end.

Definition put_game_run_responses (st : Store) (bearer : option Jwt)
  (runId : string) (body : ReqBody) : Response * Store :=
  match jwt_authenticate bearer with
  | None => (SendStatus 401, st)
  | Some user =>
      match gameOwnerMiddleware st (Some user) runId with
      | Some response => (response, st)
      | None => put_responses_handler st runId body
      end
  end.

(** *** GET /game-runs/:runId/results *)

(** The callback mapped over [Object.entries(responses)].  When [find]
    returns [undefined], reading [question.correctAnswer] throws. *)
Definition result_entry (entry : string * json) : Completion (string * bool) :=
  let '(questionId, answerIndex) := entry in
  match array_find (fun question => Question.id question = questionId)
          questions with
  | None => Throw TypeError
  | Some (_, question) =>
      Normal (questionId, strict_equals (Question.correctAnswer question) answerIndex)
  end.

Definition results_handler (st : Store) (runId : string)
  : Completion Response :=
  let gameRuns := read GameRuns st in
  match array_find (fun gameRun => GameRun.id gameRun = runId) gameRuns with
  | None => Normal (SendStatus 404)
  | Some (_, gameRun) =>
      let* entries :=
        array_map result_entry (map_to_list (GameRun.responses gameRun)) in
      Normal
        (Send 200
           (ResultsBody (GameRun.id gameRun) (GameRun.userName gameRun)
              (GameRun.createdAt gameRun) (list_to_map entries)))
  end.

Definition get_game_run_results (st : Store) (bearer : option Jwt)
  (runId : string) : Completion Response :=
  match jwt_authenticate bearer with
  | None => Normal (SendStatus 401)
  | Some user =>
      match gameOwnerMiddleware st (Some user) runId with
      | Some response => Normal response
      | None => results_handler st runId
      end
  end.

End App.

(** * Specification vocabulary and sample data *)

(** The spec's reading of a valid answer: "an integer in [0,3]". *)
Definition integer_in_0_3 (v : json) : Prop :=
  ∃ (z : Z) (q : Q), v = JNumber q ∧ (q == inject_Z z)%Q ∧ 0 ≤ z ≤ 3.

(** The submissions the schema is meant to let through: at least one entry,
    every key a question id of the catalog, every value an integer in [0,3]. *)
Definition valid_submission (questions : list Question.t)
  (m : gmap string json) : Prop :=
  m ≠ ∅ ∧
  ∀ k x, m !! k = Some x → k ∈ questionIds questions ∧ integer_in_0_3 x.

(** The keys the key schema lets through: the question ids of a catalog that
    has questions, every non-empty string for a catalog that has none. *)
Definition key_allowed (questions : list Question.t) (k : string) : Prop :=
  match questions with
  | [] => k ≠ ""
  | _ :: _ => k ∈ questionIds questions
  end.

(** The spec's reading of "compute results": each entry of the responses
    yields the boolean "submitted index equals correct index", and an
    unknown question id is a non-match. *)
Definition spec_result_entry (questions : list Question.t)
  (questionId : string) (answerIndex : json) : bool :=
  match array_find (λ question, Question.id question = questionId) questions with
  | Some (_, question) => strict_equals (Question.correctAnswer question) answerIndex
  | None => false
  end.

Definition spec_results (questions : list Question.t)
  (responses : gmap string json) : gmap string bool :=
  map_imap (λ k x, Some (spec_result_entry questions k x)) responses.

(** Every stored run answers only questions of the catalog. *)
Definition known_ids (questions : list Question.t) (st : Store) : Prop :=
  Forall (λ g, ∀ k, k ∈ dom (GameRun.responses g) → k ∈ questionIds questions)
    (read GameRuns st).

(** The data model's invariant on stored responses: keys are question ids
    of the catalog, values are integers in [0,3]. *)
Definition responses_valid (questions : list Question.t) (st : Store) : Prop :=
  Forall (λ g, ∀ k x, GameRun.responses g !! k = Some x →
                      k ∈ questionIds questions ∧ integer_in_0_3 x)
    (read GameRuns st).

(** What identifies a run and its owner: everything but the responses. *)
Definition run_identity (g : GameRun.t) : string * string * Z :=
  (GameRun.id g, GameRun.userName g, GameRun.createdAt g).

(** The requests that write: a POST /game-runs (with the values [uuidv4()]
    and the clock give it) or a PUT /game-runs/:runId/responses. *)
Inductive WriteRequest : Type :=
  | CreateRun (bearer : option Jwt) (runId : string) (now : Z)
  | SubmitResponses (bearer : option Jwt) (runId : string) (body : ReqBody).

(** The store after serving the requests one after the other. *)
Definition serve (questions : list Question.t)
  (requests : list WriteRequest) (st : Store) : Store :=
  foldl (λ st request,
           match request with
           | CreateRun bearer runId now =>
               (post_game_runs st bearer runId now).2
           | SubmitResponses bearer runId body =>
               (put_game_run_responses questions st bearer runId body).2
           end) st requests.

(** A small deployment in the shape of the test suite's: two users, three
    questions, and a stand-in for bcrypt under which the hash of [p] is
    ["bcrypt:" ++ p]. *)
Module Sample.

Definition bcrypt_compare (password hash : string) : bool :=
  bool_decide (hash = "bcrypt:" +:+ password).

Definition questions : list Question.t :=
  [ Question.mk "q0" "2 + 2?" ["3"; "4"; "5"; "6"] 1;
    Question.mk "q1" "Capital of France?" ["Paris"; "Rome"; "Bern"; "Oslo"] 0;
    Question.mk "q2" "Largest planet?" ["Mars"; "Venus"; "Earth"; "Jupiter"] 3 ].

Definition users : list User.t :=
  [ User.mk "Iris" "bcrypt:123"; User.mk "Max" "bcrypt:123" ].

Definition iris_token : Jwt := jwt_sign "Iris" JWT_SECRET "Iris" 1700000000.
Definition max_token : Jwt := jwt_sign "Max" JWT_SECRET "Max" 1700000001.

(** Iris's run, with one answer recorded. *)
Definition iris_run : GameRun.t :=
  GameRun.mk "run-1" "Iris" 1700000000000 {[ "q2" := JNumber 3 ]}.

Definition store : Store := mkStore users questions [iris_run].

(** Two correct answers and a wrong one, as in the results test. *)
Definition submission : gmap string json :=
  {[ "q0" := JNumber 1; "q1" := JNumber 0; "q2" := JNumber 0 ]}.

(** A run whose stored responses name a question the catalog lacks. *)
Definition stale_run : GameRun.t :=
  GameRun.mk "run-2" "Iris" 1700000000001 {[ "gone" := JNumber 0 ]}.

Definition stale_store : Store := mkStore users questions [stale_run].

(** A token for Iris signed with a key that is not the service's. *)
Definition forged_token : Jwt := jwt_sign "Iris" "guess" "Iris" 1700000002.

(** A second run, Max's, beside Iris's. *)
Definition max_run : GameRun.t :=
  GameRun.mk "run-3" "Max" 1700000000002 {[ "q0" := JNumber 1 ]}.

Definition two_runs_store : Store := mkStore users questions [iris_run; max_run].

End Sample.

(** * Properties *)

(** ** Numbers and the value rule *)

Lemma trunc_inject_Z (q : Q) (z : Z) : (q == inject_Z z)%Q → trunc q = z.
Proof.
  unfold Qeq, trunc. simpl. intros H.
  rewrite Z.mul_1_r in H. rewrite H. apply Z.quot_mul. discriminate.
Qed.

Lemma integer_rule_iff (q : Q) :
  Qeq_bool (inject_Z (trunc q) - q) 0 = true ↔ ∃ z : Z, (q == inject_Z z)%Q.
Proof.
  rewrite Qeq_bool_iff. split.
  - intros H. exists (trunc q). lra.
  - intros [z Hz]. rewrite (trunc_inject_Z q z Hz). lra.
Qed.

Lemma Qle_bool_inject_Z (q : Q) (z a b : Z) :
  (q == inject_Z z)%Q →
  (Qle_bool (inject_Z a) q = true ↔ a ≤ z) ∧
  (Qle_bool q (inject_Z b) = true ↔ z ≤ b).
Proof.
  intros Hq. rewrite !Qle_bool_iff, Hq, <- !Zle_Qle. done.
Qed.

(** The value rule accepts exactly the integers 0, 1, 2, 3. *)
Lemma value_schema_None (v : json) :
  value_schema v = None ↔ integer_in_0_3 v.
Proof.
  split.
  - destruct v as [| | q | | |]; try discriminate. unfold value_schema.
    destruct (negb (Qle_bool q _) || _); [discriminate|].
    destruct (Qeq_bool _ 0) eqn:Hint; [|discriminate]. simpl.
    destruct (Qle_bool 0 q) eqn:Hmin; [|discriminate]. simpl.
    destruct (Qle_bool q 3) eqn:Hmax; [|discriminate]. intros _.
    apply integer_rule_iff in Hint as [z Hz].
    exists z, q. split; [done|]. split; [done|].
    destruct (Qle_bool_inject_Z q z 0 3 Hz) as [H0 H3].
    split; [by apply H0 | by apply H3].
  - intros (z & q & -> & Hq & Hz). unfold value_schema.
    destruct (Qle_bool_inject_Z q z (- MAX_SAFE_INTEGER) MAX_SAFE_INTEGER Hq)
      as [Hlo Hhi].
    destruct (Qle_bool_inject_Z q z 0 3 Hq) as [H0 H3].
    rewrite (proj2 Hlo), (proj2 Hhi) by (unfold MAX_SAFE_INTEGER; lia). simpl.
    rewrite (proj2 (integer_rule_iff q)) by (by exists z). simpl.
    change (Qle_bool 0 q) with (Qle_bool (inject_Z 0) q).
    change (Qle_bool q 3) with (Qle_bool q (inject_Z 3)).
    rewrite (proj2 H0), (proj2 H3) by lia. done.
Qed.

Lemma strict_equals_integer (n z : Z) :
  strict_equals n (JNumber (inject_Z z)) = bool_decide (z = n).
Proof.
  unfold strict_equals. case_bool_decide as H.
  - subst. apply Qeq_bool_iff. reflexivity.
  - destruct (Qeq_bool _ _) eqn:E; [|done].
    apply Qeq_bool_iff in E. apply (proj1 (inject_Z_injective _ _)) in E. congruence.
Qed.

(** ** Arrays *)

Section Arrays.
Context {A : Type}.

Lemma head_omap_None {B : Type} (f : A → option B) (l : list A) :
  head (omap f l) = None ↔ Forall (λ x, f x = None) l.
Proof.
  induction l as [|x l IH]; simpl.
  - split; [constructor | done].
  - destruct (f x) eqn:E; simpl.
    + split; [done|]. intros H. apply Forall_cons in H as [H _]. congruence.
    + rewrite IH. split; [by constructor|]. by intros [_ ?]%Forall_cons.
Qed.

Lemma head_filter_None (P : A → Prop) `{!∀ x, Decision (P x)} (l : list A) :
  head (filter P l) = None ↔ Forall (λ x, ¬ P x) l.
Proof.
  rewrite head_None. induction l as [|x l IH].
  - split; [constructor | done].
  - rewrite filter_cons, Forall_cons. destruct (decide (P x)).
    + split; [done | tauto].
    + rewrite IH. tauto.
Qed.

(** Assigning through the reference [find] returned, when the assignment
    keeps the element inside the predicate: [find] still returns the same
    slot. *)
Lemma array_find_assign (P : A → Prop) `{!∀ x, Decision (P x)}
  (l : list A) (i : nat) (x y : A) :
  array_find P l = Some (i, x) → P y →
  array_find P (<[i := y]> l) = Some (i, y).
Proof.
  unfold array_find. intros (Hi & _ & Hleast)%list_find_Some Hy.
  apply list_find_Some. split_and!.
  - apply list_lookup_insert_eq. by eapply lookup_lt_Some.
  - done.
  - intros j z Hj Hlt. rewrite list_lookup_insert_ne in Hj by lia. eauto.
Qed.

Lemma array_find_None (P : A → Prop) `{!∀ x, Decision (P x)} (l : list A) :
  Forall (λ x, ¬ P x) l → array_find P l = None.
Proof. apply list_find_None. Qed.

Lemma array_map_Normal {B : Type} (f : A → Completion B) (l : list A)
  (g : A → B) :
  Forall (λ x, f x = Normal (g x)) l → array_map f l = Normal (g <$> l).
Proof.
  induction 1 as [|x l Hx _ IH]; simpl; [done|]. by rewrite Hx, IH.
Qed.

Lemma array_map_Throw {B : Type} (f : A → Completion B) (l : list A)
  (x : A) (e : JsError) :
  x ∈ l → f x = Throw e → ∃ e', array_map f l = Throw e'.
Proof.
  induction l as [|y l IH]; intros Hin Hx.
  - by apply elem_of_nil in Hin.
  - simpl. destruct (f y) as [b | e'] eqn:Hy; simpl; [|by eexists].
    apply elem_of_cons in Hin as [-> | Hin]; [congruence|].
    destruct (IH Hin Hx) as [e' ->]. by eexists.
Qed.

End Arrays.

(** The [gameRuns.map(g => g.id === runId ? g : g)] of the PUT handler
    copies the array unchanged. *)
Lemma map_same_branches (runId : string) (l : list GameRun.t) :
  (λ gameRun, if decide (GameRun.id gameRun = runId) then gameRun else gameRun)
    <$> l = l.
Proof.
  induction l as [|g l IH]; [done|].
  rewrite fmap_cons, IH. by destruct (decide _).
Qed.

(** ** The schema *)

Section Schema.
Variable questions : list Question.t.

Lemma key_schema_true (k : string) :
  key_schema questions k = true ↔ key_allowed questions k.
Proof.
  unfold key_schema, key_allowed, questionIds.
  destruct questions; apply bool_decide_eq_true.
Qed.

Lemma key_allowed_catalog (k : string) :
  questions ≠ [] → key_allowed questions k ↔ k ∈ questionIds questions.
Proof. unfold key_allowed. by destruct questions. Qed.

Lemma catalog_key_allowed (k : string) :
  k ∈ questionIds questions → key_allowed questions k.
Proof.
  unfold key_allowed, questionIds. destruct questions; [|done].
  by intros ?%elem_of_nil.
Qed.

Lemma lookup_clone (m : gmap string json) (k : string) :
  clone m !! k = if decide (k = "__proto__") then None else m !! k.
Proof.
  unfold clone. destruct (decide _) as [-> | Hne].
  - apply lookup_delete_eq.
  - by apply lookup_delete_ne.
Qed.

Lemma clone_id (m : gmap string json) :
  m !! "__proto__" = None → clone m = m.
Proof. apply delete_id. Qed.

Lemma pattern_entry_None (k : string) (x : json) :
  pattern_entry questions (k, x) = None ↔
  (key_allowed questions k → integer_in_0_3 x).
Proof.
  unfold pattern_entry. simpl. rewrite <- value_schema_None.
  destruct (key_schema questions k) eqn:Hk.
  - apply key_schema_true in Hk. rewrite fmap_None. tauto.
  - split; [|done]. intros _ Hin. apply key_schema_true in Hin. congruence.
Qed.

(** The schema returns a value exactly when the clone of the body has at
    least one entry, only keys the key schema allows and only integers in
    [0,3] as values; the value is the clone (no conversion takes place). *)
Lemma schema_accepts_clone (body : ReqBody) (value : gmap string json) :
  putGameRunResponsesSchema questions body = inr value ↔
  ∃ m, body = BodyObject m ∧ value = clone m ∧ value ≠ ∅ ∧
       ∀ k x, value !! k = Some x →
              key_allowed questions k ∧ integer_in_0_3 x.
Proof.
  destruct body as [m | l]; [|split; [done | by intros (? & ? & _)]].
  unfold putGameRunResponsesSchema. cbv zeta.
  destruct (head (omap _ _)) as [e|] eqn:Hpat.
  { split; [done|]. intros (m' & [= <-] & -> & _ & Hall).
    assert (head (omap (pattern_entry questions) (map_to_list (clone m)))
            = None) as Hnone; [|congruence].
    apply head_omap_None, Forall_forall. intros [k x] Hin%elem_of_map_to_list.
    apply pattern_entry_None. intros _. by apply (Hall k x). }
  apply head_omap_None in Hpat. rewrite Forall_forall in Hpat.
  destruct (head (filter _ _)) as [[k0 x0]|] eqn:Hunk.
  { split; [done|]. intros (m' & [= <-] & -> & _ & Hall).
    apply head_Some_elem_of, list_elem_of_filter in Hunk as [Hk Hin].
    apply elem_of_map_to_list, Hall in Hin as [Hin _].
    apply key_schema_true in Hin. simpl in Hk. congruence. }
  apply head_filter_None in Hunk. rewrite Forall_forall in Hunk.
  destruct (decide (size (clone m) < 1)%nat) as [Hsz | Hsz].
  { split; [done|]. intros (m' & [= <-] & -> & Hne & _).
    destruct Hne. apply map_size_empty_iff. lia. }
  split.
  - intros [= <-]. exists m. split; [done|]. split; [done|]. split.
    { intros Hempty. rewrite Hempty, map_size_empty in Hsz. lia. }
    intros k x Hin%elem_of_map_to_list.
    assert (key_allowed questions k) as Hk.
    { apply key_schema_true. specialize (Hunk _ Hin). simpl in Hunk.
      by destruct (key_schema questions k). }
    split; [done|]. apply (pattern_entry_None k x); [by apply Hpat | done].
  - by intros (m' & [= <-] & -> & _).
Qed.

(** A valid submission is accepted as it is, when no question id of the
    catalog is the property name ["__proto__"] (ids are UUIDs). *)
Lemma schema_accepts_valid (value : gmap string json) :
  "__proto__" ∉ questionIds questions →
  valid_submission questions value →
  putGameRunResponsesSchema questions (BodyObject value) = inr value.
Proof.
  intros Hproto [Hne Hall]. apply schema_accepts_clone. exists value.
  assert (clone value = value) as Hclone.
  { apply clone_id. destruct (value !! "__proto__") as [x|] eqn:Hx; [|done].
    by destruct (Hall _ x Hx). }
  rewrite Hclone. split_and!; [done | done | done |].
  intros k x Hk. destruct (Hall k x Hk). split; [|done].
  by apply catalog_key_allowed.
Qed.

(** For a catalog that has questions, what the schema accepts is a valid
    submission: the clone of the body. *)
Lemma schema_accepted_valid (body : ReqBody) (value : gmap string json) :
  questions ≠ [] →
  putGameRunResponsesSchema questions body = inr value →
  valid_submission questions value ∧
  ∃ m, body = BodyObject m ∧ value = clone m.
Proof.
  intros Hcat (m & -> & -> & Hne & Hall)%schema_accepts_clone.
  split; [|by exists m]. split; [done|].
  intros k x Hk. destruct (Hall k x Hk). split; [|done].
  by apply key_allowed_catalog.
Qed.


End Schema.

(** ** The middleware chain of the two game-run routes *)

Lemma owner_check_next (st : Store) (user : Principal) (runId : string) :
  gameOwnerMiddleware st (Some user) runId = None ↔
  ∃ i gameRun,
    array_find (λ gameRun, GameRun.id gameRun = runId) (read GameRuns st)
      = Some (i, gameRun) ∧
    GameRun.userName gameRun = principal_userName user.
Proof.
  unfold gameOwnerMiddleware.
  destruct (array_find _ _) as [[i g]|]; [|split; [done | by intros (? & ? & ? & _)]].
  destruct (decide _) as [Heq | Hne].
  - split; [by exists i, g | done].
  - split; [done|]. intros (? & ? & [= _ ->] & ?). done.
Qed.

Section Submit.
Variable questions : list Question.t.

(** Once both middlewares have let the request through, the handler's
    answer is decided by the schema alone. *)
Lemma put_after_checks (st : Store) (bearer : option Jwt) (user : Principal)
  (runId : string) (body : ReqBody) (i : nat) (gameRun : GameRun.t) :
  jwt_authenticate bearer = Some user →
  array_find (λ gameRun, GameRun.id gameRun = runId) (read GameRuns st)
    = Some (i, gameRun) →
  GameRun.userName gameRun = principal_userName user →
  put_game_run_responses questions st bearer runId body =
    match putGameRunResponsesSchema questions body with
    | inl error => (Send 400 (ErrorBody error), st)
    | inr value =>
        (SendStatus 200,
         write GameRuns
           (<[i := GameRun.set_responses value gameRun]> (read GameRuns st)) st)
    end.
Proof.
  intros Hjwt Hfind Howner. unfold put_game_run_responses. rewrite Hjwt.
  rewrite (proj2 (owner_check_next st user runId)) by eauto.
  unfold put_responses_handler. rewrite Hfind.
  destruct (putGameRunResponsesSchema questions body); [done|].
  by rewrite map_same_branches.
Qed.

End Submit.

(** ** Claims on PUT /game-runs/:runId/responses *)






(** C10.  The empty object [{}] has no key outside the catalog and no value
    that is not an integer in [0,3], yet the schema refuses it with the
    at-least-one-entry error, and the route (after authentication and the
    ownership check) answers 400 with that error and leaves the store as it
    was. *)
Theorem put_empty_submission_400 (questions : list Question.t) (st : Store)
  (bearer : option Jwt) (user : Principal) (runId : string) :
  jwt_authenticate bearer = Some user →
  gameOwnerMiddleware st (Some user) runId = None →
  (∀ k x, (∅ : gmap string json) !! k = Some x →
          k ∈ questionIds questions ∧ integer_in_0_3 x) ∧
  putGameRunResponsesSchema questions (BodyObject ∅) = inl object_min ∧
  put_game_run_responses questions st bearer runId (BodyObject ∅)
    = (Send 400 (ErrorBody object_min), st).
Proof.
  intros Hjwt (i & g & Hfind & Howner)%owner_check_next.
  split; [intros k x Hk; by rewrite lookup_empty in Hk|].
  assert (putGameRunResponsesSchema questions (BodyObject ∅) = inl object_min)
    as Hmin.
  { unfold putGameRunResponsesSchema, clone.
    by rewrite delete_empty, map_to_list_empty. }
  split; [done|].
  by rewrite (put_after_checks questions st bearer user runId _ i g), Hmin.
Qed.

Lemma put_empty_submission_400_witness :
  (∀ k x, (∅ : gmap string json) !! k = Some x →
          k ∈ questionIds Sample.questions ∧ integer_in_0_3 x) ∧
  putGameRunResponsesSchema Sample.questions (BodyObject ∅) = inl object_min ∧
  put_game_run_responses Sample.questions Sample.store
    (Some Sample.iris_token) "run-1" (BodyObject ∅)
    = (Send 400 (ErrorBody object_min), Sample.store).
Proof.
  apply (put_empty_submission_400 Sample.questions Sample.store
           (Some Sample.iris_token) (mkPrincipal "Iris") "run-1").
  - reflexivity.
  - reflexivity.
Defined.

(** C9.  Submitting the same body to the same run twice: the second request
    gets the answer the first got and leaves the store the first left, so
    the stored game runs after two submissions are those after one, and any
    results request reads the same results from either.  (This holds for
    every body; for a valid one the first submission is the 200 of C4.) *)
Theorem put_idempotent (questions : list Question.t) (st : Store)
  (bearer : option Jwt) (runId : string) (body : ReqBody) :
  let once := put_game_run_responses questions st bearer runId body in
  let twice := put_game_run_responses questions once.2 bearer runId body in
  twice = once ∧
  read GameRuns twice.2 = read GameRuns once.2 ∧
  ∀ bearer' runId',
    get_game_run_results questions twice.2 bearer' runId'
      = get_game_run_results questions once.2 bearer' runId'.
Proof.
  intros once twice.
  assert (twice = once) as Heq; [|by rewrite Heq].
  subst once twice. unfold put_game_run_responses at 2 3.
  destruct (jwt_authenticate bearer) as [user|] eqn:Hjwt;
    [|simpl; unfold put_game_run_responses; by rewrite Hjwt].
  destruct (gameOwnerMiddleware st (Some user) runId) as [r|] eqn:Hown;
    [simpl; unfold put_game_run_responses; by rewrite Hjwt, Hown|].
  apply owner_check_next in Hown as (i & g & Hfind & Howner).
  unfold put_responses_handler. rewrite Hfind.
  destruct (putGameRunResponsesSchema questions body) as [e | value] eqn:Hval.
  { simpl. rewrite (put_after_checks questions st bearer user runId _ i g) by done.
    by rewrite Hval. }
  rewrite map_same_branches. simpl.
  set (g' := GameRun.set_responses value g).
  set (st1 := write GameRuns (<[i := g']> (read GameRuns st)) st).
  assert (array_find (λ g, GameRun.id g = runId) (read GameRuns st1)
          = Some (i, g')) as Hfind1.
  { destruct st as [us qs runs]. simpl in *.
    eapply array_find_assign; [done|]. simpl.
    by apply list_find_Some in Hfind as (_ & ? & _). }
  rewrite (put_after_checks questions st1 bearer user runId _ i g') by done.
  rewrite Hval. f_equal. subst st1. destruct st as [us qs runs]. simpl.
  by rewrite list_insert_insert_eq.
Qed.

(** ** The ownership check *)

(** C6.  For an authenticated request to either game-run route, whatever
    the submitted body: when no stored run has the requested id the answer
    is 404; when there is one (the one [find] returns) and its userName is
    not the principal's the answer is 403; in particular the answer is 403
    when some run has the id and no run with that id belongs to the
    principal.  The two routes answer alike, and the submit route leaves the
    store as it was. *)
Theorem owner_check_404_403 (questions : list Question.t) (st : Store)
  (bearer : option Jwt) (user : Principal) (runId : string) (body : ReqBody) :
  jwt_authenticate bearer = Some user →
  (Forall (λ g, GameRun.id g ≠ runId) (read GameRuns st) →
   put_game_run_responses questions st bearer runId body = (SendStatus 404, st) ∧
   get_game_run_results questions st bearer runId = Normal (SendStatus 404)) ∧
  (∀ i g,
     array_find (λ g, GameRun.id g = runId) (read GameRuns st) = Some (i, g) →
     GameRun.userName g ≠ principal_userName user →
     put_game_run_responses questions st bearer runId body = (SendStatus 403, st) ∧
     get_game_run_results questions st bearer runId = Normal (SendStatus 403)) ∧
  (Exists (λ g, GameRun.id g = runId) (read GameRuns st) →
   Forall (λ g, GameRun.id g = runId →
                GameRun.userName g ≠ principal_userName user)
     (read GameRuns st) →
   put_game_run_responses questions st bearer runId body = (SendStatus 403, st) ∧
   get_game_run_results questions st bearer runId = Normal (SendStatus 403)).
Proof.
  intros Hjwt. unfold put_game_run_responses, get_game_run_results.
  rewrite Hjwt. unfold gameOwnerMiddleware.
  assert (∀ i g,
    array_find (λ g, GameRun.id g = runId) (read GameRuns st) = Some (i, g) →
    GameRun.userName g ≠ principal_userName user →
    match array_find (λ g, GameRun.id g = runId) (read GameRuns st) with
    | Some (_, gameRun) =>
        if decide (GameRun.userName gameRun = principal_userName user)
        then None else Some (SendStatus 403)
    | None => Some (SendStatus 404)
    end = Some (SendStatus 403)) as Hforbidden.
  { intros i g -> Hne. by destruct (decide _). }
  split_and!.
  - intros Hnone.
    by rewrite (array_find_None (λ g, GameRun.id g = runId) _ Hnone).
  - intros i g Hfind Hne. by rewrite (Hforbidden i g Hfind Hne).
  - intros (g0 & Hin0 & Hid0)%Exists_exists Hall.
    destruct (list_find_elem_of (λ g, GameRun.id g = runId) _ g0 Hin0 Hid0)
      as [[i g] Hfind].
    rewrite (Hforbidden i g Hfind); [done|].
    apply list_find_Some in Hfind as (Hg%list_elem_of_lookup_2 & Hid & _).
    rewrite Forall_forall in Hall. by apply Hall.
Qed.

Lemma owner_check_404_403_witness :
  (put_game_run_responses Sample.questions Sample.store
     (Some Sample.max_token) "oops" (BodyObject Sample.submission)
     = (SendStatus 404, Sample.store) ∧
   get_game_run_results Sample.questions Sample.store
     (Some Sample.max_token) "oops" = Normal (SendStatus 404)) ∧
  (put_game_run_responses Sample.questions Sample.store
     (Some Sample.max_token) "run-1" (BodyObject Sample.submission)
     = (SendStatus 403, Sample.store) ∧
   get_game_run_results Sample.questions Sample.store
     (Some Sample.max_token) "run-1" = Normal (SendStatus 403)) ∧
  (put_game_run_responses Sample.questions Sample.store
     (Some Sample.max_token) "run-1" (BodyObject ∅)
     = (SendStatus 403, Sample.store) ∧
   get_game_run_results Sample.questions Sample.store
     (Some Sample.max_token) "run-1" = Normal (SendStatus 403)).
Proof.
  split; [|split].
  - apply (owner_check_404_403 Sample.questions Sample.store
             (Some Sample.max_token) (mkPrincipal "Max") "oops"
             (BodyObject Sample.submission)); [reflexivity|].
    repeat constructor. discriminate.
  - apply (proj1 (proj2 (owner_check_404_403 Sample.questions Sample.store
             (Some Sample.max_token) (mkPrincipal "Max") "run-1"
             (BodyObject Sample.submission) eq_refl))
             0%nat Sample.iris_run); [reflexivity | discriminate].
  - apply (proj2 (proj2 (owner_check_404_403 Sample.questions Sample.store
             (Some Sample.max_token) (mkPrincipal "Max") "run-1"
             (BodyObject ∅) eq_refl))).
    + by left.
    + repeat constructor. discriminate.
Defined.

(** ** Creating a run *)

(** C5.  With a bearer token that verifies, POST /game-runs answers 200 with
    the generated run id in the body and appends one record to the game-runs
    collection: its id is the generated one, its userName the one in the
    token's payload, its createdAt the current time, its responses empty.
    The records already stored, and the other collections, are kept; when
    the generated id is fresh, looking the id up finds the new record. *)
Theorem post_game_runs_creates (st : Store) (token payload : Jwt)
  (runId : string) (now : Z) :
  jwt_verify token JWT_SECRET = Some payload →
  ∃ st' new,
    post_game_runs st (Some token) runId now = (Send 200 (RunIdBody runId), st') ∧
    read GameRuns st' = (read GameRuns st ++ [new])%list ∧
    GameRun.id new = runId ∧
    GameRun.userName new = jwt_userName payload ∧
    GameRun.createdAt new = now ∧
    GameRun.responses new = ∅ ∧
    read Users st' = read Users st ∧
    read Questions st' = read Questions st ∧
    (Forall (λ g, GameRun.id g ≠ runId) (read GameRuns st) →
     array_find (λ g, GameRun.id g = runId) (read GameRuns st')
       = Some (length (read GameRuns st), new)).
Proof.
  intros Hverify. unfold post_game_runs, jwt_authenticate. rewrite Hverify.
  destruct st as [us qs runs]. simpl.
  eexists _, (GameRun.mk runId (jwt_userName payload) now ∅).
  split; [reflexivity|]. simpl. split_and!; try done.
  intros Hfresh. unfold array_find.
  rewrite list_find_app_r
    by exact (array_find_None (λ g, GameRun.id g = runId) _ Hfresh).
  simpl. by rewrite decide_True.
Qed.

Lemma post_game_runs_creates_witness :
  ∃ st' new,
    post_game_runs Sample.store (Some Sample.max_token) "run-9" 1700000000500
      = (Send 200 (RunIdBody "run-9"), st') ∧
    read GameRuns st' = (read GameRuns Sample.store ++ [new])%list ∧
    GameRun.id new = "run-9" ∧
    GameRun.userName new = "Max" ∧
    GameRun.createdAt new = 1700000000500 ∧
    GameRun.responses new = ∅ ∧
    read Users st' = read Users Sample.store ∧
    read Questions st' = read Questions Sample.store ∧
    (Forall (λ g, GameRun.id g ≠ "run-9") (read GameRuns Sample.store) →
     array_find (λ g, GameRun.id g = "run-9") (read GameRuns st')
       = Some (length (read GameRuns Sample.store), new)).
Proof.
  apply (post_game_runs_creates Sample.store Sample.max_token Sample.max_token
           "run-9" 1700000000500).
  reflexivity.
Defined.

(** ** The question catalog routes *)

Lemma public_fields_dom (a b c : json) :
  dom (<["id" := a]> (<["question" := b]> (<["options" := c]>
         (∅ : gmap string json))))
    = ({[ "id"; "question"; "options" ]} : gset string).
Proof. rewrite !dom_insert_L, dom_empty_L. set_solver. Qed.

(** C7.  GET /questions answers 200 with one object per question of the
    stored catalog, in catalog order; each object has exactly the keys id,
    question and options, with the question's values, and so no
    correctAnswer.  GET /questions/:questionId answers 404 when no stored
    question has the id, and otherwise 200 with the object of the question
    [find] returns, from which correctAnswer has been deleted: again exactly
    the keys id, question and options, with the question's values. *)
Theorem questions_never_expose_answer (st : Store) :
  (∃ l,
     get_questions st = Send 200 (QuestionsBody l) ∧
     length l = length (read Questions st) ∧
     ∀ i q, read Questions st !! i = Some q →
       ∃ o, l !! i = Some o ∧
            dom o = {[ "id"; "question"; "options" ]} ∧
            o !! "id" = Some (JString (Question.id q)) ∧
            o !! "question" = Some (JString (Question.question q)) ∧
            o !! "options" = Some (JArray (JString <$> Question.options q)) ∧
            o !! "correctAnswer" = None) ∧
  ∀ questionId,
    (Forall (λ q, Question.id q ≠ questionId) (read Questions st) →
     get_question st questionId = SendStatus 404) ∧
    (∀ i q,
       array_find (λ q, Question.id q = questionId) (read Questions st)
         = Some (i, q) →
       ∃ o, get_question st questionId = Send 200 (QuestionBody o) ∧
            Question.id q = questionId ∧
            dom o = {[ "id"; "question"; "options" ]} ∧
            o !! "id" = Some (JString (Question.id q)) ∧
            o !! "question" = Some (JString (Question.question q)) ∧
            o !! "options" = Some (JArray (JString <$> Question.options q)) ∧
            o !! "correctAnswer" = None).
Proof.
  split.
  - eexists. split; [reflexivity|]. split; [by rewrite length_fmap|].
    intros i q Hq. eexists. split.
    { rewrite list_lookup_fmap, Hq. reflexivity. }
    split; [apply public_fields_dom|]. by simplify_map_eq.
  - intros questionId. unfold get_question. split.
    + intros Hnone.
      by rewrite (array_find_None (λ q, Question.id q = questionId) _ Hnone).
    + intros i q Hfind. rewrite Hfind. eexists. split; [reflexivity|].
      split; [by apply list_find_Some in Hfind as (_ & ? & _)|].
      unfold Question.to_object. split; [|by simplify_map_eq].
      rewrite dom_delete_L, !dom_insert_L, dom_empty_L.
      set_solver.
Qed.

Lemma questions_never_expose_answer_witness :
  get_question Sample.store "oops" = SendStatus 404 ∧
  ∃ o, get_question Sample.store "q1" = Send 200 (QuestionBody o) ∧
       Question.id (Question.mk "q1" "Capital of France?"
                      ["Paris"; "Rome"; "Bern"; "Oslo"] 0) = "q1" ∧
       dom o = {[ "id"; "question"; "options" ]} ∧
       o !! "id" = Some (JString "q1") ∧
       o !! "question" = Some (JString "Capital of France?") ∧
       o !! "options"
         = Some (JArray (JString <$> ["Paris"; "Rome"; "Bern"; "Oslo"])) ∧
       o !! "correctAnswer" = None.
Proof.
  split.
  - apply (questions_never_expose_answer Sample.store).
    repeat constructor; discriminate.
  - apply (proj2 (proj2 (questions_never_expose_answer Sample.store) "q1")
             1%nat (Question.mk "q1" "Capital of France?"
                      ["Paris"; "Rome"; "Bern"; "Oslo"] 0)).
    reflexivity.
Defined.

(** ** Authentication *)

(** C8.  POST /authenticate, for the username and password the Basic
    strategy hands to its verify callback:
    - when the user record of that name has a hash the password matches, the
      answer is 200 with a token signed under the service's secret whose
      payload userName and subject are both the supplied username;
    - when the hash does not match, the answer is the bare status 401;
    - when no user record has that name, the answer is the same bare 401. *)
Theorem authenticate_token_or_401 (bcrypt_compare : string → string → bool)
  (st : Store) (userName password : string) (now : Z) :
  (∀ i user,
     array_find (λ u, User.userName u = userName) (read Users st)
       = Some (i, user) →
     bcrypt_compare password (User.password user) = true →
     ∃ token,
       post_authenticate bcrypt_compare st (Some (userName, password)) now
         = Send 200 (TokenBody token) ∧
       jwt_userName token = userName ∧
       jwt_sub token = userName ∧
       jwt_verify token JWT_SECRET = Some token ∧
       jwt_authenticate (Some token) = Some (mkPrincipal userName)) ∧
  (∀ i user,
     array_find (λ u, User.userName u = userName) (read Users st)
       = Some (i, user) →
     bcrypt_compare password (User.password user) = false →
     post_authenticate bcrypt_compare st (Some (userName, password)) now
       = SendStatus 401) ∧
  (Forall (λ u, User.userName u ≠ userName) (read Users st) →
   post_authenticate bcrypt_compare st (Some (userName, password)) now
     = SendStatus 401).
Proof.
  unfold post_authenticate, basic_verify. split_and!.
  - intros i user Hfind Hpw. rewrite Hfind, Hpw.
    apply list_find_Some in Hfind as (_ & Hname & _). rewrite Hname.
    eexists. split; [reflexivity|].
    unfold jwt_authenticate, jwt_verify, jwt_sign. simpl. done.
  - intros i user Hfind Hpw. by rewrite Hfind, Hpw.
  - intros Hnone.
    by rewrite (array_find_None (λ u, User.userName u = userName) _ Hnone).
Qed.

Lemma authenticate_token_or_401_witness :
  (∃ token,
     post_authenticate Sample.bcrypt_compare Sample.store
       (Some ("Iris", "123")) 1700000000 = Send 200 (TokenBody token) ∧
     jwt_userName token = "Iris" ∧
     jwt_sub token = "Iris" ∧
     jwt_verify token JWT_SECRET = Some token ∧
     jwt_authenticate (Some token) = Some (mkPrincipal "Iris")) ∧
  post_authenticate Sample.bcrypt_compare Sample.store
    (Some ("Iris", "1233")) 1700000000 = SendStatus 401 ∧
  post_authenticate Sample.bcrypt_compare Sample.store
    (Some ("Eve", "123")) 1700000000 = SendStatus 401.
Proof.
  split_and!.
  - apply (proj1 (authenticate_token_or_401 Sample.bcrypt_compare Sample.store
                    "Iris" "123" 1700000000)
             0%nat (User.mk "Iris" "bcrypt:123")); reflexivity.
  - apply (proj1 (proj2 (authenticate_token_or_401 Sample.bcrypt_compare
                           Sample.store "Iris" "1233" 1700000000))
             0%nat (User.mk "Iris" "bcrypt:123")); reflexivity.
  - apply (proj2 (proj2 (authenticate_token_or_401 Sample.bcrypt_compare
                           Sample.store "Eve" "123" 1700000000))).
    repeat constructor; discriminate.
Defined.

(** ** Computing results *)

(** [Object.fromEntries(Object.entries(m).map(([k, x]) => [k, f(k, x)]))]
    is the map with the keys of [m] and [f] applied at each. *)
Lemma from_entries_map {A B : Type} (f : string → A → B) (m : gmap string A) :
  list_to_map ((λ entry, (entry.1, f entry.1 entry.2)) <$> map_to_list m)
    = map_imap (λ k x, Some (f k x)) m.
Proof.
  apply map_eq. intros k. rewrite map_lookup_imap.
  destruct (m !! k) as [x|] eqn:Hk; simpl.
  - apply elem_of_list_to_map_1.
    + rewrite <- list_fmap_compose. exact (NoDup_fst_map_to_list m).
    + apply list_elem_of_fmap. exists (k, x). split; [done|].
      by apply elem_of_map_to_list.
  - apply not_elem_of_list_to_map. rewrite <- list_fmap_compose.
    intros ([k' x] & -> & Hin%elem_of_map_to_list)%list_elem_of_fmap.
    simpl in Hk. congruence.
Qed.

Section Results.
Variable questions : list Question.t.

Lemma array_find_question (k : string) :
  k ∈ questionIds questions ↔
  ∃ j question,
    array_find (λ question, Question.id question = k) questions
      = Some (j, question).
Proof.
  unfold questionIds, array_find. split.
  - intros (q & -> & Hq)%list_elem_of_fmap.
    destruct (list_find_elem_of (λ question, Question.id question = Question.id q)
                questions q Hq eq_refl) as [[j q'] Hfind].
    by exists j, q'.
  - intros (j & q & (Hq & <- & _)%list_find_Some).
    apply list_elem_of_fmap. exists q. split; [done|].
    by eapply list_elem_of_lookup_2.
Qed.

(** On a known question id the handler's callback computes what the spec
    describes; on an unknown one it throws. *)
Lemma result_entry_known (k : string) (x : json) :
  k ∈ questionIds questions →
  result_entry questions (k, x) = Normal (k, spec_result_entry questions k x).
Proof.
  intros (j & q & Hfind)%array_find_question.
  unfold result_entry, spec_result_entry. by rewrite Hfind.
Qed.

Lemma result_entry_unknown (k : string) (x : json) :
  k ∉ questionIds questions → result_entry questions (k, x) = Throw TypeError.
Proof.
  intros Hk. unfold result_entry.
  destruct (array_find _ _) as [[j q]|] eqn:Hfind; [|done].
  destruct Hk. apply array_find_question. eauto.
Qed.

Lemma results_after_checks (st : Store) (bearer : option Jwt)
  (user : Principal) (runId : string) (i : nat) (g : GameRun.t) :
  jwt_authenticate bearer = Some user →
  array_find (λ g, GameRun.id g = runId) (read GameRuns st) = Some (i, g) →
  GameRun.userName g = principal_userName user →
  get_game_run_results questions st bearer runId =
    let* entries :=
      array_map (result_entry questions) (map_to_list (GameRun.responses g)) in
    Normal (Send 200 (ResultsBody (GameRun.id g) (GameRun.userName g)
                        (GameRun.createdAt g) (list_to_map entries))).
Proof.
  intros Hjwt Hfind Howner. unfold get_game_run_results. rewrite Hjwt.
  rewrite (proj2 (owner_check_next st user runId)) by eauto.
  unfold results_handler. by rewrite Hfind.
Qed.

Lemma results_known (responses : gmap string json) :
  (∀ k, k ∈ dom responses → k ∈ questionIds questions) →
  array_map (result_entry questions) (map_to_list responses)
    = Normal ((λ entry, (entry.1, spec_result_entry questions entry.1 entry.2))
                <$> map_to_list responses).
Proof.
  intros Hknown. apply array_map_Normal, Forall_forall.
  intros [k x] Hin%elem_of_map_to_list. apply result_entry_known, Hknown.
  apply elem_of_dom. eauto.
Qed.

Lemma results_unknown (responses : gmap string json) (k : string) :
  k ∈ dom responses → k ∉ questionIds questions →
  array_map (result_entry questions) (map_to_list responses) = Throw TypeError.
Proof.
  intros [x Hx]%elem_of_dom Hk.
  destruct (array_map_Throw (result_entry questions) (map_to_list responses)
              (k, x) TypeError) as [[] ->]; [|by apply result_entry_unknown|done].
  by apply elem_of_map_to_list.
Qed.

End Results.

(** C1.  For a run whose responses name only questions of the catalog, GET
    /game-runs/:runId/results (authenticated, ownership check passed)
    answers 200 with the run's id, userName and createdAt and a map that has
    exactly the keys of the run's responses; at each key it holds the result
    of comparing the catalog question's correctAnswer with the submitted
    value, which for a submitted integer index is true when the index is the
    correctAnswer and false otherwise.  The map is the one the spec's
    description of the computation gives. *)
Theorem results_known_ids (questions : list Question.t) (st : Store)
  (bearer : option Jwt) (user : Principal) (runId : string)
  (i : nat) (g : GameRun.t) :
  jwt_authenticate bearer = Some user →
  gameOwnerMiddleware st (Some user) runId = None →
  array_find (λ g, GameRun.id g = runId) (read GameRuns st) = Some (i, g) →
  (∀ k, k ∈ dom (GameRun.responses g) → k ∈ questionIds questions) →
  ∃ results,
    get_game_run_results questions st bearer runId
      = Normal (Send 200 (ResultsBody (GameRun.id g) (GameRun.userName g)
                            (GameRun.createdAt g) results)) ∧
    results = spec_results questions (GameRun.responses g) ∧
    dom results = dom (GameRun.responses g) ∧
    ∀ k x, GameRun.responses g !! k = Some x →
      ∃ j question,
        array_find (λ question, Question.id question = k) questions
          = Some (j, question) ∧
        results !! k
          = Some (strict_equals (Question.correctAnswer question) x) ∧
        ∀ z, x = JNumber (inject_Z z) →
             results !! k
               = Some (bool_decide (z = Question.correctAnswer question)).
Proof.
  intros Hjwt (i' & g' & Hfind' & Howner)%owner_check_next Hfind Hknown.
  rewrite Hfind in Hfind'. injection Hfind' as <- <-.
  exists (spec_results questions (GameRun.responses g)). split.
  { rewrite (results_after_checks questions st bearer user runId i g) by done.
    rewrite results_known by done. simpl.
    by rewrite (from_entries_map (spec_result_entry questions)). }
  split; [done|]. split.
  { apply dom_imap_L. intros k. rewrite elem_of_dom. split.
    - intros [x Hx]. exists x. split; [done | by eexists].
    - intros (x & Hx & _). by exists x. }
  intros k x Hk.
  destruct (proj1 (array_find_question questions k)) as (j & q & Hq).
  { apply Hknown, elem_of_dom. eauto. }
  exists j, q. split; [done|].
  assert (spec_results questions (GameRun.responses g) !! k
          = Some (strict_equals (Question.correctAnswer q) x)) as Hres.
  { unfold spec_results. rewrite map_lookup_imap, Hk. simpl.
    unfold spec_result_entry. by rewrite Hq. }
  split; [done|]. intros z ->. by rewrite Hres, strict_equals_integer.
Qed.

Lemma results_known_ids_witness :
  ∃ results,
    get_game_run_results Sample.questions Sample.store
      (Some Sample.iris_token) "run-1"
      = Normal (Send 200 (ResultsBody "run-1" "Iris" 1700000000000 results)) ∧
    results = spec_results Sample.questions {[ "q2" := JNumber 3 ]} ∧
    dom results = dom ({[ "q2" := JNumber 3 ]} : gmap string json) ∧
    ∀ k x, ({[ "q2" := JNumber 3 ]} : gmap string json) !! k = Some x →
      ∃ j question,
        array_find (λ question, Question.id question = k) Sample.questions
          = Some (j, question) ∧
        results !! k
          = Some (strict_equals (Question.correctAnswer question) x) ∧
        ∀ z, x = JNumber (inject_Z z) →
             results !! k
               = Some (bool_decide (z = Question.correctAnswer question)).
Proof.
  apply (results_known_ids Sample.questions Sample.store
           (Some Sample.iris_token) (mkPrincipal "Iris") "run-1"
           0%nat Sample.iris_run).
  - reflexivity.
  - reflexivity.
  - reflexivity.
  - intros k Hk. simpl in Hk. rewrite dom_singleton_L in Hk.
    apply elem_of_singleton in Hk as ->.
    apply (bool_decide_unpack _). vm_compute. exact I.
Defined.

(** C2, as the code has it.  Computing results raises no error when every
    question id in the run's responses is in the catalog; an entry whose
    question id is not in the catalog is not emitted as false: the lookup
    finds no question, reading its correctAnswer throws, and the handler
    produces no response. *)
Theorem results_throw_on_unknown_id (questions : list Question.t) (st : Store)
  (bearer : option Jwt) (user : Principal) (runId : string)
  (i : nat) (g : GameRun.t) :
  jwt_authenticate bearer = Some user →
  gameOwnerMiddleware st (Some user) runId = None →
  array_find (λ g, GameRun.id g = runId) (read GameRuns st) = Some (i, g) →
  ((∀ k, k ∈ dom (GameRun.responses g) → k ∈ questionIds questions) →
   ∃ response, get_game_run_results questions st bearer runId = Normal response) ∧
  (∀ k, k ∈ dom (GameRun.responses g) → k ∉ questionIds questions →
        get_game_run_results questions st bearer runId = Throw TypeError).
Proof.
  intros Hjwt (i' & g' & Hfind' & Howner)%owner_check_next Hfind.
  rewrite Hfind in Hfind'. injection Hfind' as <- <-.
  rewrite (results_after_checks questions st bearer user runId i g) by done.
  split.
  - intros Hknown. rewrite results_known by done. simpl. by eexists.
  - intros k Hk Hunknown. by rewrite (results_unknown questions _ k).
Qed.

Lemma results_throw_on_unknown_id_witness :
  (∃ response,
     get_game_run_results Sample.questions Sample.store
       (Some Sample.iris_token) "run-1" = Normal response) ∧
  get_game_run_results Sample.questions Sample.stale_store
    (Some Sample.iris_token) "run-2" = Throw TypeError.
Proof.
  split.
  - apply (results_throw_on_unknown_id Sample.questions Sample.store
             (Some Sample.iris_token) (mkPrincipal "Iris") "run-1"
             0%nat Sample.iris_run eq_refl eq_refl eq_refl).
    intros k Hk. simpl in Hk. rewrite dom_singleton_L in Hk.
    apply elem_of_singleton in Hk as ->.
    apply (bool_decide_unpack _). vm_compute. exact I.
  - apply (proj2 (results_throw_on_unknown_id Sample.questions
                    Sample.stale_store (Some Sample.iris_token)
                    (mkPrincipal "Iris") "run-2" 0%nat Sample.stale_run
                    eq_refl eq_refl eq_refl) "gone").
    + simpl. rewrite dom_singleton_L. by apply elem_of_singleton.
    + apply (bool_decide_unpack _). vm_compute. exact I.
Defined.

(** C2 as the spec states it fails: the owner of a run whose responses hold
    the question id ["gone"], which the catalog lacks, asks for the results;
    the handler throws instead of answering with ["gone"] mapped to false. *)
Lemma results_unknown_id_not_false :
  GameRun.responses Sample.stale_run !! "gone" = Some (JNumber 0) ∧
  ("gone" ∉ questionIds Sample.questions) ∧
  get_game_run_results Sample.questions Sample.stale_store
    (Some Sample.iris_token) "run-2" = Throw TypeError ∧
  ¬ (∃ response,
       get_game_run_results Sample.questions Sample.stale_store
         (Some Sample.iris_token) "run-2" = Normal response).
Proof.
  split; [reflexivity|]. split.
  { apply (bool_decide_unpack _). vm_compute. exact I. }
  assert (get_game_run_results Sample.questions Sample.stale_store
            (Some Sample.iris_token) "run-2" = Throw TypeError) as Hthrow
    by (vm_compute; reflexivity).
  split; [done|]. intros [response H]. congruence.
Qed.

(** ** Stores on which results are always answered

    For a catalog that has questions the routes keep [known_ids]: a created
    run has no responses, and a submission is stored only when the schema
    has checked its keys against the same catalog the results handler uses.
    On such a store every results request is answered.  A catalog without
    questions is another matter: there the schema lets any non-empty key
    through. *)

Lemma post_game_runs_known_ids (questions : list Question.t) (st : Store)
  (bearer : option Jwt) (runId : string) (now : Z) :
  known_ids questions st →
  known_ids questions (post_game_runs st bearer runId now).2.
Proof.
  unfold known_ids, post_game_runs. intros Hinv.
  destruct (jwt_authenticate bearer); [|done].
  destruct st as [us qs runs]. simpl in *.
  apply Forall_app. split; [done|]. constructor; [|constructor].
  intros k. simpl. by rewrite dom_empty_L, elem_of_empty.
Qed.

Lemma put_game_run_responses_known_ids (questions : list Question.t)
  (st : Store) (bearer : option Jwt) (runId : string) (body : ReqBody) :
  questions ≠ [] →
  known_ids questions st →
  known_ids questions (put_game_run_responses questions st bearer runId body).2.
Proof.
  intros Hcat Hinv. unfold put_game_run_responses.
  destruct (jwt_authenticate bearer) as [user|]; [|done].
  destruct (gameOwnerMiddleware st (Some user) runId); [done|].
  unfold put_responses_handler.
  destruct (array_find _ _) as [[i g]|]; [|done].
  destruct (putGameRunResponsesSchema questions body) as [e|value] eqn:Hval;
    [done|].
  apply schema_accepted_valid in Hval as [[_ Hvalid] _]; [|done].
  rewrite map_same_branches. unfold known_ids in *.
  destruct st as [us qs runs]. simpl in *.
  apply Forall_insert; [done|]. simpl.
  intros k [x Hx]%elem_of_dom. by destruct (Hvalid k x Hx).
Qed.

Lemma results_answered_on_known_ids (questions : list Question.t) (st : Store)
  (bearer : option Jwt) (runId : string) :
  known_ids questions st →
  ∃ response, get_game_run_results questions st bearer runId = Normal response.
Proof.
  intros Hinv. unfold get_game_run_results.
  destruct (jwt_authenticate bearer) as [user|]; [|by eexists].
  destruct (gameOwnerMiddleware st (Some user) runId); [by eexists|].
  unfold results_handler.
  destruct (array_find _ _) as [[i g]|] eqn:Hfind; [|by eexists].
  apply list_find_Some in Hfind as (Hg%list_elem_of_lookup_2 & _).
  unfold known_ids in Hinv. rewrite Forall_forall in Hinv.
  rewrite results_known by (by apply Hinv). simpl. by eexists.
Qed.

(** ** The test suite's scenarios on the sample deployment *)

(** "should return the results of the specified game run": two correct
    answers and a wrong one. *)
Example results_after_submission :
  let st := (put_game_run_responses Sample.questions Sample.store
               (Some Sample.iris_token) "run-1"
               (BodyObject Sample.submission)).2 in
  get_game_run_results Sample.questions st (Some Sample.iris_token) "run-1"
    = Normal (Send 200 (ResultsBody "run-1" "Iris" 1700000000000
                          {[ "q0" := true; "q1" := true; "q2" := false ]})).
Proof. vm_compute. reflexivity. Qed.

(** "should update the responses of the specified game run", and the
    earlier answer to q2 is replaced, not merged. *)
Example submission_stored :
  put_game_run_responses Sample.questions Sample.store
    (Some Sample.iris_token) "run-1" (BodyObject {[ "q0" := JNumber 2 ]})
  = (SendStatus 200,
     mkStore Sample.users Sample.questions
       [GameRun.mk "run-1" "Iris" 1700000000000 {[ "q0" := JNumber 2 ]}]).
Proof. vm_compute. reflexivity. Qed.

(** "should return 400 Bad Request if the passed response value is
    invalid": the value 4, and likewise 1.5, a numeric string and -1. *)
Example value_schema_samples :
  value_schema (JNumber 4) = Some number_max ∧
  value_schema (JNumber (3 # 2)) = Some number_integer ∧
  value_schema (JString "1") = Some number_base ∧
  value_schema (JNumber (-1)) = Some number_min ∧
  value_schema (JNumber (6 # 2)) = None.
Proof. repeat split. Qed.

(** * Further properties of the code *)

(** ** The schema of the submit route *)

(** X1.  The value rule [Joi.number().integer().min(0).max(3).strict()]
    passes a JSON value exactly when it is a number equal to 0, 1, 2 or 3;
    anything else (a fraction, a negative or larger number, a string, a
    boolean, null, an array, an object) is a violation. *)
Theorem value_schema_passes_0_1_2_3 (v : json) :
  value_schema v = None ↔
  ∃ q, v = JNumber q ∧ (q == 0 ∨ q == 1 ∨ q == 2 ∨ q == 3)%Q.
Proof.
  rewrite value_schema_None. unfold integer_in_0_3. split.
  - intros (z & q & -> & Hq & Hz). exists q. split; [done|].
    assert (z = 0 ∨ z = 1 ∨ z = 2 ∨ z = 3) as [-> | [-> | [-> | ->]]] by lia;
      auto.
  - intros (q & -> & [Hq | [Hq | [Hq | Hq]]]);
      [exists 0 | exists 1 | exists 2 | exists 3]; exists q;
      (split; [done|]); (split; [done | lia]).
Qed.

(** X2.  The schema returns a value exactly for a body that is an object
    which, its ["__proto__"] entry set aside, has at least one entry, only
    keys the key schema allows (the question ids of the catalog loaded at
    start-up; every non-empty string when that catalog has no question) and
    only integers in [0,3] as values; the value returned is the submitted
    object without its ["__proto__"] entry, otherwise unconverted. *)
Theorem schema_accepts_exactly (questions : list Question.t)
  (body : ReqBody) (value : gmap string json) :
  putGameRunResponsesSchema questions body = inr value ↔
  ∃ m, body = BodyObject m ∧
       value = delete "__proto__" m ∧
       value ≠ ∅ ∧
       ∀ k x, value !! k = Some x →
              key_allowed questions k ∧ integer_in_0_3 x.
Proof. apply schema_accepts_clone. Qed.

(** X3.  The error the schema returns names a violation the body really
    has, its ["__proto__"] entry set aside: [object_base] only for an array;
    a value error only for a key the key schema allows whose value breaks
    the value rule in the way reported; an unknown-key error only for a key
    of the body that the key schema does not allow, and only when every
    allowed key of the body has a good value; the too-few-keys error only
    for an object with no other entry. *)
Theorem schema_error_sound (questions : list Question.t)
  (body : ReqBody) (error : ValidationError) :
  putGameRunResponsesSchema questions body = inl error →
  match error with
  | object_base => ∃ l, body = BodyArray l
  | object_value k why =>
      ∃ m x, body = BodyObject m ∧ k ≠ "__proto__" ∧ m !! k = Some x ∧
             key_allowed questions k ∧ value_schema x = Some why
  | object_unknown k =>
      ∃ m, body = BodyObject m ∧ k ≠ "__proto__" ∧ k ∈ dom m ∧
           ¬ key_allowed questions k ∧
           ∀ k' x, k' ≠ "__proto__" → m !! k' = Some x →
                   key_allowed questions k' → integer_in_0_3 x
  | object_min =>
      ∃ m, body = BodyObject m ∧ ∀ k, k ≠ "__proto__" → m !! k = None
  end.
Proof.
  assert (∀ (m : gmap string json) k x,
            (k, x) ∈ map_to_list (clone m) ↔ k ≠ "__proto__" ∧ m !! k = Some x)
    as Hentries.
  { intros m k x. rewrite elem_of_map_to_list, lookup_clone.
    destruct (decide (k = "__proto__")) as [-> | Hne].
    - split; [done | by intros [? _]].
    - split; [done | by intros [_ ?]]. }
  destruct body as [m | l]; [|intros [= <-]; by exists l].
  unfold putGameRunResponsesSchema. cbv zeta.
  destruct (head (omap _ _)) as [e|] eqn:Hpat.
  { intros [= <-].
    apply head_Some_elem_of, list_elem_of_omap in Hpat
      as ([k x] & [Hne Hin]%Hentries & He).
    unfold pattern_entry in He. simpl in He.
    destruct (key_schema questions k) eqn:Hk; [|done].
    apply key_schema_true in Hk.
    destruct (value_schema x) as [why|] eqn:Hx; [|done].
    injection He as <-. by exists m, x. }
  apply head_omap_None in Hpat. rewrite Forall_forall in Hpat.
  destruct (head (filter _ _)) as [[k0 x0]|] eqn:Hunk.
  { intros [= <-].
    apply head_Some_elem_of, list_elem_of_filter in Hunk as [Hk Hin].
    simpl in Hk. apply Hentries in Hin as [Hne Hin].
    exists m. split_and!; [done | done | by apply elem_of_dom; eexists | |].
    - intros Hk0%key_schema_true. congruence.
    - intros k' x Hne' Hx Hk'.
      apply (pattern_entry_None questions k' x); [|done].
      by apply Hpat, Hentries. }
  destruct (decide (size (clone m) < 1)%nat) as [Hsz|]; [|done].
  intros [= <-]. exists m. split; [done|]. intros k Hne.
  assert (clone m = ∅) as Hempty by (apply map_size_empty_iff; lia).
  apply (f_equal (λ m', m' !! k)) in Hempty.
  by rewrite lookup_clone, decide_False, lookup_empty in Hempty.
Qed.

Lemma schema_error_sound_witness :
  ∃ m, BodyObject {[ "oops" := JNumber 0; "q0" := JNumber 1 ]} = BodyObject m ∧
       "oops" ≠ "__proto__" ∧ "oops" ∈ dom m ∧
       ¬ key_allowed Sample.questions "oops" ∧
       ∀ k' x, k' ≠ "__proto__" → m !! k' = Some x →
               key_allowed Sample.questions k' → integer_in_0_3 x.
Proof.
  apply (schema_error_sound Sample.questions
           (BodyObject {[ "oops" := JNumber 0; "q0" := JNumber 1 ]})
           (object_unknown "oops")).
  vm_compute. reflexivity.
Defined.

(** ** What a submission can and cannot change *)

(** The two ways the submit route ends: a refusal that returns the store it
    was given, or the one write. *)
Lemma put_cases (questions : list Question.t) (st : Store)
  (bearer : option Jwt) (runId : string) (body : ReqBody) :
  (∃ r, put_game_run_responses questions st bearer runId body = (r, st) ∧
        (r = SendStatus 401 ∨ r = SendStatus 404 ∨ r = SendStatus 403 ∨
         ∃ error, r = Send 400 (ErrorBody error))) ∨
  (∃ user i g value,
     jwt_authenticate bearer = Some user ∧
     array_find (λ g, GameRun.id g = runId) (read GameRuns st) = Some (i, g) ∧
     GameRun.userName g = principal_userName user ∧
     putGameRunResponsesSchema questions body = inr value ∧
     put_game_run_responses questions st bearer runId body
       = (SendStatus 200,
          write GameRuns
            (<[i := GameRun.set_responses value g]> (read GameRuns st)) st)).
Proof.
  destruct (jwt_authenticate bearer) as [user|] eqn:Hjwt.
  2: { left. exists (SendStatus 401). unfold put_game_run_responses.
       rewrite Hjwt. auto. }
  destruct (array_find (λ g, GameRun.id g = runId) (read GameRuns st))
    as [[i g]|] eqn:Hfind.
  2: { left. exists (SendStatus 404).
       unfold put_game_run_responses, gameOwnerMiddleware.
       rewrite Hjwt, Hfind. auto. }
  destruct (decide (GameRun.userName g = principal_userName user))
    as [Howner | Hother].
  2: { left. exists (SendStatus 403).
       unfold put_game_run_responses, gameOwnerMiddleware.
       rewrite Hjwt, Hfind, decide_False by done. auto. }
  rewrite (put_after_checks questions st bearer user runId body i g) by done.
  destruct (putGameRunResponsesSchema questions body) as [e | value] eqn:Hval.
  - left. exists (Send 400 (ErrorBody e)). split; [done|]. do 3 right. by exists e.
  - right. by exists user, i, g, value.
Qed.

(** X4.  The submit route answers with one of 401, 404, 403, 400 (with the
    schema's error) or the bare 200, and unless the answer is that 200 the
    store is exactly the one the request found: a refused submission writes
    nothing. *)
Theorem put_refusal_writes_nothing (questions : list Question.t) (st : Store)
  (bearer : option Jwt) (runId : string) (body : ReqBody) :
  let result := put_game_run_responses questions st bearer runId body in
  (result.1 = SendStatus 401 ∨ result.1 = SendStatus 404 ∨
   result.1 = SendStatus 403 ∨
   (∃ error, result.1 = Send 400 (ErrorBody error)) ∨
   result.1 = SendStatus 200) ∧
  (result.1 = SendStatus 200 ∨ result.2 = st).
Proof.
  intros result. subst result.
  destruct (put_cases questions st bearer runId body)
    as [(r & -> & Hr) | (user & i & g & value & _ & _ & _ & _ & ->)]; simpl.
  - split; [|by right]. destruct Hr as [-> | [-> | [-> | [e ->]]]]; eauto 6.
  - split; [|by left]. do 4 right. done.
Qed.

(** X5.  Without a bearer token, or with a token signed under a key that is
    not the service's secret, each of the three protected routes answers 401,
    and the two that write leave the store as it was. *)
Theorem protected_routes_401 (questions : list Question.t) (st : Store)
  (bearer : option Jwt) (runId : string) (now : Z) (body : ReqBody) :
  bearer = None ∨ (∃ token, bearer = Some token ∧ jwt_key token ≠ JWT_SECRET) →
  post_game_runs st bearer runId now = (SendStatus 401, st) ∧
  put_game_run_responses questions st bearer runId body = (SendStatus 401, st) ∧
  get_game_run_results questions st bearer runId = Normal (SendStatus 401).
Proof.
  intros Hbad.
  assert (jwt_authenticate bearer = None) as Hjwt.
  { destruct Hbad as [-> | (token & -> & Hkey)]; [done|].
    unfold jwt_authenticate, jwt_verify. by rewrite decide_False. }
  unfold post_game_runs, put_game_run_responses, get_game_run_results.
  by rewrite Hjwt.
Qed.

Lemma protected_routes_401_witness :
  post_game_runs Sample.store (Some Sample.forged_token) "run-9" 1700000000500
    = (SendStatus 401, Sample.store) ∧
  put_game_run_responses Sample.questions Sample.store
    (Some Sample.forged_token) "run-1" (BodyObject Sample.submission)
    = (SendStatus 401, Sample.store) ∧
  get_game_run_results Sample.questions Sample.store
    (Some Sample.forged_token) "run-1" = Normal (SendStatus 401).
Proof.
  apply (protected_routes_401 Sample.questions Sample.store
           (Some Sample.forged_token) "run-1" 1700000000500
           (BodyObject Sample.submission)).
  right. exists Sample.forged_token. split; [reflexivity | discriminate].
Defined.

(** X6.  A submission never changes a run that does not belong to the
    requesting principal: whatever the run id and the body, a stored run
    whose userName is not the principal's (and any run at all when the
    request is not authenticated) is at the same place, unchanged, in the
    store that results. *)
Theorem put_spares_foreign_runs (questions : list Question.t) (st : Store)
  (bearer : option Jwt) (runId : string) (body : ReqBody)
  (j : nat) (g : GameRun.t) :
  read GameRuns st !! j = Some g →
  (∀ user, jwt_authenticate bearer = Some user →
           GameRun.userName g ≠ principal_userName user) →
  read GameRuns (put_game_run_responses questions st bearer runId body).2 !! j
    = Some g.
Proof.
  intros Hj Hforeign.
  destruct (put_cases questions st bearer runId body)
    as [(r & -> & _) | (user & i & gi & value & Hjwt & Hfind & Howner & _ & ->)];
    [done|].
  destruct st as [us qs runs]. simpl in *.
  apply list_find_Some in Hfind as (Hi & _ & _).
  destruct (decide (i = j)) as [-> | Hne].
  - rewrite Hj in Hi. injection Hi as ->. by destruct (Hforeign user Hjwt).
  - by rewrite list_lookup_insert_ne.
Qed.

Lemma put_spares_foreign_runs_witness :
  read GameRuns
    (put_game_run_responses Sample.questions Sample.two_runs_store
       (Some Sample.iris_token) "run-1" (BodyObject Sample.submission)).2
    !! 1%nat = Some Sample.max_run.
Proof.
  apply (put_spares_foreign_runs Sample.questions Sample.two_runs_store
           (Some Sample.iris_token) "run-1" (BodyObject Sample.submission)
           1%nat Sample.max_run).
  - reflexivity.
  - intros user [= <-]. discriminate.
Defined.

(** X7.  Whatever the request, the submit route keeps the game-runs
    collection's sequence of (id, userName, createdAt) as it was: it adds no
    run, removes none, reorders none, and changes no run's id, owner or
    creation time; the users and questions collections are not written. *)
Theorem put_keeps_run_identities (questions : list Question.t) (st : Store)
  (bearer : option Jwt) (runId : string) (body : ReqBody) :
  let st' := (put_game_run_responses questions st bearer runId body).2 in
  run_identity <$> read GameRuns st' = run_identity <$> read GameRuns st ∧
  read Users st' = read Users st ∧
  read Questions st' = read Questions st.
Proof.
  intros st'. subst st'.
  destruct (put_cases questions st bearer runId body)
    as [(r & -> & _) | (user & i & g & value & _ & Hfind & _ & _ & ->)];
    [done|].
  destruct st as [us qs runs]. simpl in *. split; [|done].
  apply list_find_Some in Hfind as (Hi & _ & _).
  rewrite list_fmap_insert. apply list_insert_id.
  by rewrite list_lookup_fmap, Hi.
Qed.

(** Assigning to a slot that is outside the predicate before and after
    leaves [find] as it was. *)
Lemma array_find_assign_other {A : Type} (P : A → Prop)
  `{!∀ x, Decision (P x)} (l : list A) (i : nat) (x y : A) :
  l !! i = Some x → ¬ P x → ¬ P y →
  array_find P (<[i := y]> l) = array_find P l.
Proof.
  unfold array_find. revert i.
  induction l as [|a l IH]; intros [|i] Hi Hx Hy; simpl in *; try done.
  - injection Hi as ->. by rewrite !decide_False.
  - destruct (decide (P a)); [done|]. by rewrite (IH i).
Qed.

(** The results route reads the store only through the lookup of the run. *)
Lemma results_depend_on_find (questions : list Question.t) (st st' : Store)
  (bearer : option Jwt) (runId : string) :
  array_find (λ g, GameRun.id g = runId) (read GameRuns st')
    = array_find (λ g, GameRun.id g = runId) (read GameRuns st) →
  get_game_run_results questions st' bearer runId
    = get_game_run_results questions st bearer runId.
Proof.
  intros Hfind.
  unfold get_game_run_results, gameOwnerMiddleware, results_handler.
  by rewrite Hfind.
Qed.

(** X8.  A submission to one run id leaves the results of every other run
    id as they were, for every requester. *)
Theorem put_keeps_other_results (questions : list Question.t) (st : Store)
  (bearer : option Jwt) (runId : string) (body : ReqBody)
  (bearer' : option Jwt) (runId' : string) :
  runId' ≠ runId →
  get_game_run_results questions
    (put_game_run_responses questions st bearer runId body).2 bearer' runId'
  = get_game_run_results questions st bearer' runId'.
Proof.
  intros Hne.
  destruct (put_cases questions st bearer runId body)
    as [(r & -> & _) | (user & i & g & value & _ & Hfind & _ & _ & ->)];
    [done|].
  apply results_depend_on_find.
  destruct st as [us qs runs]. simpl in *.
  apply list_find_Some in Hfind as (Hi & Hid & _).
  apply (array_find_assign_other _ runs i g); [done | |]; simpl; congruence.
Qed.

Lemma put_keeps_other_results_witness :
  get_game_run_results Sample.questions
    (put_game_run_responses Sample.questions Sample.two_runs_store
       (Some Sample.iris_token) "run-1" (BodyObject Sample.submission)).2
    (Some Sample.max_token) "run-3"
  = get_game_run_results Sample.questions Sample.two_runs_store
      (Some Sample.max_token) "run-3".
Proof.
  apply (put_keeps_other_results Sample.questions Sample.two_runs_store
           (Some Sample.iris_token) "run-1" (BodyObject Sample.submission)
           (Some Sample.max_token) "run-3").
  discriminate.
Defined.

(** X9.  Results are sent only to the owner: when the results route answers
    200 with a body, the request carried a token that verifies, the run
    [find] returns for the id has the userName of the token's payload, and
    the body is that run's id, userName and createdAt with a results map. *)
Theorem results_only_to_owner (questions : list Question.t) (st : Store)
  (bearer : option Jwt) (runId : string) (body : Body) :
  get_game_run_results questions st bearer runId = Normal (Send 200 body) →
  ∃ token i g results,
    bearer = Some token ∧
    jwt_key token = JWT_SECRET ∧
    array_find (λ g, GameRun.id g = runId) (read GameRuns st) = Some (i, g) ∧
    GameRun.userName g = jwt_userName token ∧
    body = ResultsBody (GameRun.id g) (GameRun.userName g)
             (GameRun.createdAt g) results.
Proof.
  unfold get_game_run_results, jwt_authenticate, jwt_verify.
  destruct bearer as [token|]; [|done].
  destruct (decide (jwt_key token = JWT_SECRET)) as [Hkey|]; [|done].
  unfold gameOwnerMiddleware, results_handler.
  destruct (array_find _ _) as [[i g]|] eqn:Hfind; [|done].
  destruct (decide _) as [Howner|]; [|done]. simpl in Howner.
  destruct (array_map _ _) as [entries|]; [|done]. simpl.
  intros [= <-]. by exists token, i, g, (list_to_map entries).
Qed.

Lemma results_only_to_owner_witness :
  ∃ token i g results,
    Some Sample.iris_token = Some token ∧
    jwt_key token = JWT_SECRET ∧
    array_find (λ g, GameRun.id g = "run-1") (read GameRuns Sample.store)
      = Some (i, g) ∧
    GameRun.userName g = jwt_userName token ∧
    ResultsBody "run-1" "Iris" 1700000000000 {[ "q2" := true ]}
      = ResultsBody (GameRun.id g) (GameRun.userName g)
          (GameRun.createdAt g) results.
Proof.
  apply (results_only_to_owner Sample.questions Sample.store
           (Some Sample.iris_token) "run-1").
  vm_compute. reflexivity.
Defined.

(** ** Submitting, then reading the results *)

(** X10.  After a valid submission by the run's owner, the owner's results
    request answers 200 with the run's id, userName and createdAt (those it
    had before the submission) and a map that has exactly the submitted keys,
    each holding whether the submitted value equals the catalog question's
    correctAnswer.  (Question ids are UUIDs; the theorem uses that none is
    the property name ["__proto__"].) *)
Theorem submit_then_results (questions : list Question.t) (st : Store)
  (bearer : option Jwt) (user : Principal) (runId : string)
  (value : gmap string json) :
  "__proto__" ∉ questionIds questions →
  jwt_authenticate bearer = Some user →
  gameOwnerMiddleware st (Some user) runId = None →
  valid_submission questions value →
  ∃ i g,
    array_find (λ g, GameRun.id g = runId) (read GameRuns st) = Some (i, g) ∧
    get_game_run_results questions
      (put_game_run_responses questions st bearer runId (BodyObject value)).2
      bearer runId
    = Normal (Send 200 (ResultsBody (GameRun.id g) (GameRun.userName g)
                          (GameRun.createdAt g)
                          (spec_results questions value))) ∧
    dom (spec_results questions value) = dom value ∧
    ∀ k x, value !! k = Some x →
      ∃ j question,
        array_find (λ question, Question.id question = k) questions
          = Some (j, question) ∧
        spec_results questions value !! k
          = Some (strict_equals (Question.correctAnswer question) x).
Proof.
  intros Hproto Hjwt (i & g & Hfind & Howner)%owner_check_next Hvalid.
  exists i, g. split; [done|].
  assert (∀ k, k ∈ dom value → k ∈ questionIds questions) as Hknown.
  { intros k [x Hx]%elem_of_dom. by destruct (proj2 Hvalid k x Hx). }
  split.
  { rewrite (put_after_checks questions st bearer user runId _ i g) by done.
    rewrite (schema_accepts_valid questions value) by done.
    set (g' := GameRun.set_responses value g).
    assert (array_find (λ g, GameRun.id g = runId)
              (<[i := g']> (read GameRuns st)) = Some (i, g')) as Hfind'.
    { eapply array_find_assign; [done|]. simpl.
      by apply list_find_Some in Hfind as (_ & ? & _). }
    rewrite (results_after_checks questions _ bearer user runId i g');
      [| done | by destruct st | done].
    simpl. rewrite results_known by done. simpl.
    by rewrite (from_entries_map (spec_result_entry questions)). }
  split.
  { apply dom_imap_L. intros k. rewrite elem_of_dom. split.
    - intros [x Hx]. exists x. split; [done | by eexists].
    - intros (x & Hx & _). by exists x. }
  intros k x Hk.
  destruct (proj1 (array_find_question questions k)) as (j & q & Hq).
  { apply Hknown, elem_of_dom. eauto. }
  exists j, q. split; [done|].
  unfold spec_results. rewrite map_lookup_imap, Hk. simpl.
  unfold spec_result_entry. by rewrite Hq.
Qed.

Lemma submit_then_results_witness :
  ∃ i g,
    array_find (λ g, GameRun.id g = "run-1") (read GameRuns Sample.store)
      = Some (i, g) ∧
    get_game_run_results Sample.questions
      (put_game_run_responses Sample.questions Sample.store
         (Some Sample.iris_token) "run-1" (BodyObject Sample.submission)).2
      (Some Sample.iris_token) "run-1"
    = Normal (Send 200 (ResultsBody (GameRun.id g) (GameRun.userName g)
                          (GameRun.createdAt g)
                          (spec_results Sample.questions Sample.submission))) ∧
    dom (spec_results Sample.questions Sample.submission)
      = dom Sample.submission ∧
    ∀ k x, Sample.submission !! k = Some x →
      ∃ j question,
        array_find (λ question, Question.id question = k) Sample.questions
          = Some (j, question) ∧
        spec_results Sample.questions Sample.submission !! k
          = Some (strict_equals (Question.correctAnswer question) x).
Proof.
  apply (submit_then_results Sample.questions Sample.store
           (Some Sample.iris_token) (mkPrincipal "Iris") "run-1"
           Sample.submission).
  - apply (bool_decide_unpack _). vm_compute. exact I.
  - reflexivity.
  - reflexivity.
  - apply (schema_accepted_valid Sample.questions
             (BodyObject Sample.submission)); [discriminate|].
    vm_compute. reflexivity.
Defined.

(** X11.  The last valid submission wins: submitting a valid object after
    any earlier submission to the same run, by the same requester, gives the
    answer and the store that submitting it alone would have given; nothing
    of the earlier submission is left.  (Question ids are UUIDs; the theorem
    uses that none is the property name ["__proto__"].) *)
Theorem last_submission_wins (questions : list Question.t) (st : Store)
  (bearer : option Jwt) (runId : string) (earlier : ReqBody)
  (value : gmap string json) :
  "__proto__" ∉ questionIds questions →
  valid_submission questions value →
  put_game_run_responses questions
    (put_game_run_responses questions st bearer runId earlier).2
    bearer runId (BodyObject value)
  = put_game_run_responses questions st bearer runId (BodyObject value).
Proof.
  intros Hproto Hvalid%(schema_accepts_valid questions value Hproto).
  destruct (put_cases questions st bearer runId earlier)
    as [(r & -> & _) | (user & i & g & v1 & Hjwt & Hfind & Howner & _ & ->)];
    [done|].
  simpl.
  set (g1 := GameRun.set_responses v1 g).
  set (st1 := write GameRuns (<[i := g1]> (read GameRuns st)) st).
  assert (array_find (λ g, GameRun.id g = runId) (read GameRuns st1)
          = Some (i, g1)) as Hfind1.
  { destruct st as [us qs runs]. simpl in *.
    eapply array_find_assign; [done|]. simpl.
    by apply list_find_Some in Hfind as (_ & ? & _). }
  rewrite (put_after_checks questions st1 bearer user runId _ i g1) by done.
  rewrite (put_after_checks questions st bearer user runId _ i g) by done.
  rewrite Hvalid. f_equal. subst st1. destruct st as [us qs runs]. simpl.
  by rewrite list_insert_insert_eq.
Qed.

Lemma last_submission_wins_witness :
  put_game_run_responses Sample.questions
    (put_game_run_responses Sample.questions Sample.store
       (Some Sample.iris_token) "run-1"
       (BodyObject {[ "q1" := JNumber 2 ]})).2
    (Some Sample.iris_token) "run-1" (BodyObject Sample.submission)
  = put_game_run_responses Sample.questions Sample.store
      (Some Sample.iris_token) "run-1" (BodyObject Sample.submission).
Proof.
  apply (last_submission_wins Sample.questions Sample.store
           (Some Sample.iris_token) "run-1"
           (BodyObject {[ "q1" := JNumber 2 ]}) Sample.submission).
  - apply (bool_decide_unpack _). vm_compute. exact I.
  - apply (schema_accepted_valid Sample.questions
             (BodyObject Sample.submission)); [discriminate|].
    vm_compute. reflexivity.
Defined.

(** ** Creating runs *)

(** X12.  Creating a run disturbs no stored run: every run keeps its place,
    and a run id that [find] resolved before resolves to the same run after,
    even when the generated id collides with it (the new record is then the
    one that cannot be reached). *)
Theorem post_keeps_existing_runs (st : Store) (bearer : option Jwt)
  (runId : string) (now : Z) (runId' : string) (i : nat) (g : GameRun.t) :
  array_find (λ g, GameRun.id g = runId') (read GameRuns st) = Some (i, g) →
  let st' := (post_game_runs st bearer runId now).2 in
  array_find (λ g, GameRun.id g = runId') (read GameRuns st') = Some (i, g) ∧
  ∀ j g', read GameRuns st !! j = Some g' → read GameRuns st' !! j = Some g'.
Proof.
  intros Hfind st'. subst st'. unfold post_game_runs.
  destruct (jwt_authenticate bearer) as [user|]; [|done].
  destruct st as [us qs runs]. simpl in *. split.
  - by apply list_find_app_l.
  - intros j g' Hj. by apply lookup_app_l_Some.
Qed.

Lemma post_keeps_existing_runs_witness :
  array_find (λ g, GameRun.id g = "run-1")
    (read GameRuns
       (post_game_runs Sample.store (Some Sample.max_token) "run-1"
          1700000000500).2)
    = Some (0%nat, Sample.iris_run) ∧
  ∀ j g', read GameRuns Sample.store !! j = Some g' →
          read GameRuns
            (post_game_runs Sample.store (Some Sample.max_token) "run-1"
               1700000000500).2 !! j = Some g'.
Proof.
  apply (post_keeps_existing_runs Sample.store (Some Sample.max_token)
           "run-1" 1700000000500 "run-1" 0%nat Sample.iris_run).
  reflexivity.
Defined.

(** X13.  A run just created under a fresh id can be queried at once: its
    creator's results request answers 200 with the new id, the creator's
    userName, the creation time and an empty results map, and the request
    of a principal of another name answers 403. *)
Theorem created_run_results_empty (questions : list Question.t) (st : Store)
  (token payload : Jwt) (runId : string) (now : Z) :
  jwt_verify token JWT_SECRET = Some payload →
  Forall (λ g, GameRun.id g ≠ runId) (read GameRuns st) →
  let st' := (post_game_runs st (Some token) runId now).2 in
  get_game_run_results questions st' (Some token) runId
    = Normal (Send 200 (ResultsBody runId (jwt_userName payload) now ∅)) ∧
  ∀ other,
    jwt_key other = JWT_SECRET →
    jwt_userName other ≠ jwt_userName payload →
    get_game_run_results questions st' (Some other) runId
      = Normal (SendStatus 403).
Proof.
  intros Hverify Hfresh st'. subst st'.
  assert (jwt_authenticate (Some token)
          = Some (mkPrincipal (jwt_userName payload))) as Hjwt.
  { unfold jwt_authenticate. by rewrite Hverify. }
  unfold post_game_runs. rewrite Hjwt. cbn [snd principal_userName].
  set (new := GameRun.mk runId (jwt_userName payload) now ∅).
  set (st' := write GameRuns (read GameRuns st ++ [new])%list st).
  assert (array_find (λ g, GameRun.id g = runId) (read GameRuns st')
          = Some (length (read GameRuns st), new)) as Hfind.
  { subst st'. destruct st as [us qs runs]. simpl in *. unfold array_find.
    rewrite list_find_app_r
      by exact (array_find_None (λ g, GameRun.id g = runId) _ Hfresh).
    simpl. by rewrite decide_True. }
  split.
  - rewrite (results_after_checks questions st' (Some token) _ runId _ new)
      by done.
    simpl. by rewrite map_to_list_empty.
  - intros other Hkey Hname.
    unfold get_game_run_results, jwt_authenticate, jwt_verify.
    rewrite decide_True by done.
    unfold gameOwnerMiddleware. rewrite Hfind.
    rewrite decide_False; [done | simpl; congruence].
Qed.

Lemma created_run_results_empty_witness :
  get_game_run_results Sample.questions
    (post_game_runs Sample.store (Some Sample.max_token) "run-9"
       1700000000500).2 (Some Sample.max_token) "run-9"
    = Normal (Send 200 (ResultsBody "run-9" "Max" 1700000000500 ∅)) ∧
  ∀ other,
    jwt_key other = JWT_SECRET →
    jwt_userName other ≠ "Max" →
    get_game_run_results Sample.questions
      (post_game_runs Sample.store (Some Sample.max_token) "run-9"
         1700000000500).2 (Some other) "run-9"
      = Normal (SendStatus 403).
Proof.
  apply (created_run_results_empty Sample.questions Sample.store
           Sample.max_token Sample.max_token "run-9" 1700000000500).
  - reflexivity.
  - repeat constructor. discriminate.
Defined.

(** ** Invariants of the stored runs *)

Lemma post_game_runs_responses_valid (questions : list Question.t)
  (st : Store) (bearer : option Jwt) (runId : string) (now : Z) :
  responses_valid questions st →
  responses_valid questions (post_game_runs st bearer runId now).2.
Proof.
  unfold responses_valid, post_game_runs. intros Hinv.
  destruct (jwt_authenticate bearer); [|done].
  destruct st as [us qs runs]. simpl in *.
  apply Forall_app. split; [done|]. constructor; [|constructor].
  intros k x. simpl. by rewrite lookup_empty.
Qed.

Lemma put_game_run_responses_responses_valid (questions : list Question.t)
  (st : Store) (bearer : option Jwt) (runId : string) (body : ReqBody) :
  questions ≠ [] →
  responses_valid questions st →
  responses_valid questions
    (put_game_run_responses questions st bearer runId body).2.
Proof.
  intros Hcat Hinv.
  destruct (put_cases questions st bearer runId body)
    as [(r & -> & _) | (user & i & g & value & _ & _ & _ & Hval & ->)];
    [done|].
  apply schema_accepted_valid in Hval as [[_ Hvalid] _]; [|done].
  unfold responses_valid in *. destruct st as [us qs runs]. simpl in *.
  by apply Forall_insert.
Qed.

(** X14.  With a catalog that has at least one question, the data model's
    invariant is kept by the service: if every stored run's responses have
    only catalog question ids as keys and integers in [0,3] as values, the
    same is true after any sequence of run creations and submissions,
    accepted or refused.  (With a catalog that has no question the schema
    lets every non-empty key through and the invariant is lost: see
    [empty_catalog_breaks_results].) *)
Theorem serve_keeps_responses_valid (questions : list Question.t)
  (requests : list WriteRequest) (st : Store) :
  questions ≠ [] →
  responses_valid questions st →
  responses_valid questions (serve questions requests st).
Proof.
  intros Hcat. unfold serve. revert st.
  induction requests as [|request requests IH]; intros st Hinv; [done|].
  simpl. apply IH. destruct request.
  - by apply post_game_runs_responses_valid.
  - by apply put_game_run_responses_responses_valid.
Qed.

Lemma serve_keeps_responses_valid_witness :
  responses_valid Sample.questions
    (serve Sample.questions
       [ CreateRun (Some Sample.max_token) "run-9" 1700000000500;
         SubmitResponses (Some Sample.max_token) "run-9"
           (BodyObject Sample.submission);
         SubmitResponses (Some Sample.iris_token) "run-9"
           (BodyObject {[ "oops" := JNumber 7 ]}) ]
       Sample.store).
Proof.
  apply (serve_keeps_responses_valid Sample.questions); [discriminate|].
  apply Forall_cons. split; [|constructor].
  intros k x Hk. simpl in Hk. apply lookup_singleton_Some in Hk as [<- <-].
  split.
  - apply (bool_decide_unpack _). vm_compute. exact I.
  - exists 3, 3%Q. split_and!; [reflexivity | reflexivity | lia | lia].
Defined.

(** X15.  With a catalog that has at least one question, and starting from
    a store whose runs answer only catalog questions (an empty game-runs
    collection, for one), no sequence of run creations and submissions
    brings the service to a store on which a results request throws: the
    results route always produces a response.  (With a catalog that has no
    question one accepted submission is enough to make it throw: see
    [empty_catalog_breaks_results].) *)
Theorem served_results_never_throw (questions : list Question.t)
  (requests : list WriteRequest) (st : Store)
  (bearer : option Jwt) (runId : string) :
  questions ≠ [] →
  known_ids questions st →
  ∃ response,
    get_game_run_results questions (serve questions requests st) bearer runId
      = Normal response.
Proof.
  intros Hcat Hinv. apply results_answered_on_known_ids.
  unfold serve. revert st Hinv.
  induction requests as [|request requests IH]; intros st Hinv; [done|].
  simpl. apply IH. destruct request.
  - by apply post_game_runs_known_ids.
  - by apply put_game_run_responses_known_ids.
Qed.

Lemma served_results_never_throw_witness :
  ∃ response,
    get_game_run_results Sample.questions
      (serve Sample.questions
         [ CreateRun (Some Sample.max_token) "run-9" 1700000000500;
           SubmitResponses (Some Sample.max_token) "run-9"
             (BodyObject Sample.submission) ]
         (mkStore Sample.users Sample.questions []))
      (Some Sample.max_token) "run-9"
      = Normal response.
Proof.
  apply (served_results_never_throw Sample.questions); [discriminate|].
  constructor.
Defined.

(** The catalog without questions: Iris's submission of [{"q0": 1}] is
    accepted and stored, and her results request then throws. *)
Example empty_catalog_breaks_results :
  let st := serve []
              [ SubmitResponses (Some Sample.iris_token) "run-1"
                  (BodyObject {[ "q0" := JNumber 1 ]}) ]
              Sample.store in
  read GameRuns st
    = [GameRun.mk "run-1" "Iris" 1700000000000 {[ "q0" := JNumber 1 ]}] ∧
  get_game_run_results [] st (Some Sample.iris_token) "run-1"
    = Throw TypeError.
Proof. split; vm_compute; reflexivity. Qed.

(** ** Authentication, read the other way *)

(** X16.  A token is issued only on a password match: when POST
    /authenticate answers 200, the request carried a username and a
    password, the first user record of that name exists and
    [bcrypt.compare] accepted the password against its hash, and the body
    is the token signed under the service's secret for that username as
    payload userName and as subject. *)
Theorem token_only_on_password_match (bcrypt_compare : string → string → bool)
  (st : Store) (credentials : option (string * string)) (now : Z)
  (body : Body) :
  post_authenticate bcrypt_compare st credentials now = Send 200 body →
  ∃ userName password i user,
    credentials = Some (userName, password) ∧
    array_find (λ u, User.userName u = userName) (read Users st)
      = Some (i, user) ∧
    bcrypt_compare password (User.password user) = true ∧
    body = TokenBody (jwt_sign userName JWT_SECRET userName now).
Proof.
  unfold post_authenticate, basic_verify.
  destruct credentials as [[userName password]|]; [|done].
  destruct (array_find _ _) as [[i user]|] eqn:Hfind; [|done].
  destruct (bcrypt_compare password (User.password user)) eqn:Hpw; [|done].
  intros [= <-]. exists userName, password, i, user.
  apply list_find_Some in Hfind as Hfind'. destruct Hfind' as (_ & -> & _).
  done.
Qed.

Lemma token_only_on_password_match_witness :
  ∃ userName password i user,
    Some ("Max", "123") = Some (userName, password) ∧
    array_find (λ u, User.userName u = userName) (read Users Sample.store)
      = Some (i, user) ∧
    Sample.bcrypt_compare password (User.password user) = true ∧
    TokenBody Sample.max_token
      = TokenBody (jwt_sign userName JWT_SECRET userName 1700000001).
Proof.
  apply (token_only_on_password_match Sample.bcrypt_compare Sample.store
           (Some ("Max", "123")) 1700000001 (TokenBody Sample.max_token)).
  reflexivity.
Defined.

(** ** The two question routes together *)

Lemma delete_correctAnswer (q : Question.t) :
  delete "correctAnswer" (Question.to_object q)
  = <["id" := JString (Question.id q)]>
      (<["question" := JString (Question.question q)]>
         (<["options" := JArray (JString <$> Question.options q)]> ∅)).
Proof.
  unfold Question.to_object.
  rewrite !delete_insert_ne by done. by rewrite delete_insert_eq, delete_empty.
Qed.

(** X17.  The single lookup and the listing agree: for a question id that
    [find] resolves to the question at index [i] of the stored catalog, GET
    /questions/:questionId sends the very object that GET /questions sends
    at index [i]. *)
Theorem lookup_agrees_with_listing (st : Store) (questionId : string)
  (i : nat) (q : Question.t) :
  array_find (λ q, Question.id q = questionId) (read Questions st)
    = Some (i, q) →
  ∃ o l,
    get_question st questionId = Send 200 (QuestionBody o) ∧
    get_questions st = Send 200 (QuestionsBody l) ∧
    l !! i = Some o.
Proof.
  intros Hfind. unfold get_question, get_questions. rewrite Hfind.
  eexists _, _. split; [reflexivity|]. split; [reflexivity|].
  apply list_find_Some in Hfind as (Hi & _ & _).
  by rewrite list_lookup_fmap, Hi, delete_correctAnswer.
Qed.

Lemma lookup_agrees_with_listing_witness :
  ∃ o l,
    get_question Sample.store "q2" = Send 200 (QuestionBody o) ∧
    get_questions Sample.store = Send 200 (QuestionsBody l) ∧
    l !! 2%nat = Some o.
Proof.
  apply (lookup_agrees_with_listing Sample.store "q2" 2%nat
           (Question.mk "q2" "Largest planet?"
              ["Mars"; "Venus"; "Earth"; "Jupiter"] 3)).
  reflexivity.
Defined.

(** X18.  Every id the listing shows can be fetched: for each question of
    the stored catalog, GET /questions/:questionId with its id answers 200
    (never 404) with an object carrying that id and no correctAnswer; when
    several questions share the id, the object is the first one's. *)
Theorem listed_question_is_served (st : Store) (q : Question.t) :
  q ∈ read Questions st →
  ∃ i first o,
    array_find (λ q', Question.id q' = Question.id q) (read Questions st)
      = Some (i, first) ∧
    get_question st (Question.id q) = Send 200 (QuestionBody o) ∧
    o !! "id" = Some (JString (Question.id q)) ∧
    o !! "question" = Some (JString (Question.question first)) ∧
    o !! "correctAnswer" = None.
Proof.
  intros Hin.
  destruct (list_find_elem_of (λ q', Question.id q' = Question.id q)
              (read Questions st) q Hin eq_refl) as [[i first] Hfind].
  exists i, first. unfold get_question.
  change (list_find (λ q', Question.id q' = Question.id q) (read Questions st))
    with (array_find (λ q', Question.id q' = Question.id q) (read Questions st))
    in Hfind.
  rewrite Hfind. eexists. split; [done|]. split; [reflexivity|].
  apply list_find_Some in Hfind as (_ & Hid & _).
  rewrite delete_correctAnswer, Hid. by simplify_map_eq.
Qed.

Lemma listed_question_is_served_witness :
  ∃ i first o,
    array_find (λ q', Question.id q' = "q0") (read Questions Sample.store)
      = Some (i, first) ∧
    get_question Sample.store "q0" = Send 200 (QuestionBody o) ∧
    o !! "id" = Some (JString "q0") ∧
    o !! "question" = Some (JString (Question.question first)) ∧
    o !! "correctAnswer" = None.
Proof.
  apply (listed_question_is_served Sample.store
           (Question.mk "q0" "2 + 2?" ["3"; "4"; "5"; "6"] 1)).
  by left.
Defined.

(** ** The handlers' own not-found branch *)

(** X19.  The [if (!gameRun) 404] test that the submit and results handlers
    repeat after the ownership middleware never fires: whenever the
    middleware has called [next()], neither handler answers 404. *)
Theorem handler_404_unreachable (questions : list Question.t) (st : Store)
  (user : Principal) (runId : string) (body : ReqBody) :
  gameOwnerMiddleware st (Some user) runId = None →
  (put_responses_handler questions st runId body).1 ≠ SendStatus 404 ∧
  results_handler questions st runId ≠ Normal (SendStatus 404).
Proof.
  intros (i & g & Hfind & _)%owner_check_next.
  unfold put_responses_handler, results_handler. rewrite Hfind. split.
  - by destruct (putGameRunResponsesSchema questions body).
  - by destruct (array_map _ _).
Qed.

Lemma handler_404_unreachable_witness :
  (put_responses_handler Sample.questions Sample.store "run-1"
     (BodyObject Sample.submission)).1 ≠ SendStatus 404 ∧
  results_handler Sample.questions Sample.store "run-1"
    ≠ Normal (SendStatus 404).
Proof.
  apply (handler_404_unreachable Sample.questions Sample.store
           (mkPrincipal "Iris") "run-1" (BodyObject Sample.submission)).
  reflexivity.
Defined.

(** ** From login to a run *)

(** X20.  A token the service issues is one the service accepts, as the user
    who logged in and on any later store: the JWT strategy checks the
    signature only and never reads the users collection, so with that token
    POST /game-runs appends a run owned by the login name whatever the store
    then holds. *)
Theorem issued_token_is_accepted (bcrypt_compare : string → string → bool)
  (st : Store) (credentials : option (string * string)) (now : Z)
  (token : Jwt) :
  post_authenticate bcrypt_compare st credentials now
    = Send 200 (TokenBody token) →
  ∃ userName password,
    credentials = Some (userName, password) ∧
    jwt_authenticate (Some token) = Some (mkPrincipal userName) ∧
    ∀ (later : Store) (runId : string) (now' : Z),
      post_game_runs later (Some token) runId now'
        = (Send 200 (RunIdBody runId),
           write GameRuns
             (read GameRuns later ++ [GameRun.mk runId userName now' ∅])%list
             later).
Proof.
  unfold post_authenticate, basic_verify.
  destruct credentials as [[userName password]|]; [|done].
  destruct (array_find _ _) as [[i user]|] eqn:Hfind; [|done].
  destruct (bcrypt_compare password (User.password user)); [|done].
  apply list_find_Some in Hfind as (_ & Hname & _). simpl in Hname.
  intros [= <-]. exists userName, password. split; [done|]. rewrite Hname.
  assert (jwt_authenticate (Some (jwt_sign userName JWT_SECRET userName now))
          = Some (mkPrincipal userName)) as Hjwt.
  { unfold jwt_authenticate, jwt_verify, jwt_sign. simpl. done. }
  split; [done|]. intros later runId now'.
  unfold post_game_runs. by rewrite Hjwt.
Qed.

Lemma issued_token_is_accepted_witness :
  ∃ userName password,
    Some ("Iris", "123") = Some (userName, password) ∧
    jwt_authenticate (Some Sample.iris_token) = Some (mkPrincipal userName) ∧
    ∀ (later : Store) (runId : string) (now' : Z),
      post_game_runs later (Some Sample.iris_token) runId now'
        = (Send 200 (RunIdBody runId),
           write GameRuns
             (read GameRuns later ++ [GameRun.mk runId userName now' ∅])%list
             later).
Proof.
  apply (issued_token_is_accepted Sample.bcrypt_compare Sample.store
           (Some ("Iris", "123")) 1700000000 Sample.iris_token).
  reflexivity.
Defined.
